(** * Woflang core runtime: values, tokenizer, dispatch loop, registry

    A shallow embedding of the C++ core (woflang.hpp and its implementation
    file): the tagged value [WofValue], the whitespace tokenizer, the token
    classifiers, the operator registry and the dispatch loop, together with
    the built-in operators installed by the interpreter's constructor.

    Conventions.
    - [std::string] is [string] (a sequence of 8-bit characters).
    - [std::int64_t] is a [Z]; the two places of the core that can leave the
      64-bit range ([std::stoll] and [std::llround]) say what happens there.
    - [double] is IEEE-754 binary64, through the specification floats of the
      standard library ([spec_float] at precision 53, maximal exponent 1024).
    - [std::vector<WofValue>] is a [list], index 0 first, so the top of the
      stack is the LAST element, as [back()]/[push_back]/[pop_back] see it.
    - [std::unordered_map<std::string, WofOpHandler>] is a [gmap string _].
    - a C++ exception is a value of [exception]; code that can throw lives in
      a state-and-exception monad in which the state reached before the throw
      is kept (nothing is rolled back when an exception propagates). *)

From Stdlib Require Import ZArith Ascii String List Bool Lia.
From Stdlib Require Import Floats.SpecFloat.
From stdpp Require Import gmap strings.

Local Open Scope Z_scope.

(** ** Exceptions and results *)

(** The exception classes the core can throw. [runtime_error] carries its
    [what()] text; the others come from the standard library. *)
Inductive exception : Type :=
| runtime_error (what : string)
| bad_variant_access
| invalid_argument (what : string)
| out_of_range (what : string).

(** The result of a computation that may throw. *)
Inductive outcome (A : Type) : Type :=
| Normal (a : A)
| Throw (e : exception).
Arguments Normal {A} a.
Arguments Throw {A} e.

Definition is_normal {A} (o : outcome A) : bool :=
  match o with Normal _ => true | Throw _ => false end.

(** ** The pieces of the C and C++ standard library the core calls *)
Module Std.

(** The double-quote character (code 34). *)
Definition dquote : ascii := "034"%char.

(** [std::isspace] in the "C" locale: space, \t, \n, \v, \f, \r. *)
Definition isspace (c : ascii) : bool :=
  let n := nat_of_ascii c in
  (n =? 32)%nat || ((9 <=? n)%nat && (n <=? 13)%nat).

(** [std::isdigit]: '0' .. '9'. *)
Definition isdigit (c : ascii) : bool :=
  let n := nat_of_ascii c in
  (48 <=? n)%nat && (n <=? 57)%nat.

Definition digit_value (c : ascii) : Z := Z.of_nat (nat_of_ascii c) - 48.

Definition digit_char (d : Z) : ascii := ascii_of_nat (48 + Z.to_nat d).

(** *** [std::stoll] *)

Definition LLONG_MIN : Z := - 2 ^ 63.
Definition LLONG_MAX : Z := 2 ^ 63 - 1.

Fixpoint skip_space (s : string) : string :=
  match s with
  | String c s' => if isspace c then skip_space s' else s
  | EmptyString => s
  end.

(** The longest prefix of decimal digits, read most significant digit first:
    [acc] is the value read so far, [seen] whether a digit has been read. *)
Fixpoint read_digits (s : string) (acc : Z) (seen : bool) : Z * bool :=
  match s with
  | String c s' =>
      if isdigit c then read_digits s' (acc * 10 + digit_value c) true
      else (acc, seen)
  | EmptyString => (acc, seen)
  end.

(** [std::stoll(str)] in base 10: leading white space is skipped, then an
    optional sign, then as many digits as there are. No digit at all throws
    [std::invalid_argument]; a value outside [long long] throws
    [std::out_of_range]. *)
Definition stoll (str : string) : outcome Z :=
  let s := skip_space str in
  let '(neg, s) :=
    match s with
    | String c s' =>
        if Ascii.eqb c "-" then (true, s')
        else if Ascii.eqb c "+" then (false, s')
        else (false, s)
    | EmptyString => (false, s)
    end in
  let '(mag, seen) := read_digits s 0 false in
  if negb seen then Throw (invalid_argument "stoll")
  else
    let v := if neg then - mag else mag in
    if (LLONG_MIN <=? v) && (v <=? LLONG_MAX) then Normal v
    else Throw (out_of_range "stoll").

(** *** [operator<<] of an output stream on integers *)

(** The decimal digits of [n], least significant first, pushed in front of
    [acc]; [fuel] bounds the number of digits. *)
Fixpoint put_digits (fuel : nat) (n : Z) (acc : string) : string :=
  match fuel with
  | O => acc
  | S fuel' =>
      let acc' := String (digit_char (n mod 10)) acc in
      if n / 10 =? 0 then acc' else put_digits fuel' (n / 10) acc'
  end.

(** An unsigned integer ([std::size_t], or the magnitude of a signed one):
    no sign, no leading zero, "0" for zero. *)
Definition put_unsigned (n : Z) : string :=
  put_digits (S (Z.to_nat (Z.log2 n))) n EmptyString.

(** [oss << v] for a [std::int64_t]: a minus sign for negative values, never
    a plus sign, never a decimal point. *)
Definition put_int64 (v : Z) : string :=
  if v <? 0 then String "-" (put_unsigned (- v)) else put_unsigned v.

End Std.

(** ** IEEE-754 binary64 *)
Module Double.

Definition prec : Z := 53.
Definition emax : Z := 1024.

Definition t : Type := spec_float.

(** The literal [0.0]. *)
Definition zero : t := S754_zero false.

Definition add : t -> t -> t := SFadd prec emax.
Definition sub : t -> t -> t := SFsub prec emax.
Definition mul : t -> t -> t := SFmul prec emax.
Definition div : t -> t -> t := SFdiv prec emax.

(** [a == b] and [a != b] on doubles: a NaN is unequal to everything,
    itself included, and the two zeros are equal. *)
Definition eqb (a b : t) : bool := SFeqb a b.
Definition neqb (a b : t) : bool := negb (SFeqb a b).

Definition is_nan (a : t) : bool :=
  match a with S754_nan => true | _ => false end.

(** [static_cast<double>(v)] for a 64-bit integer: the nearest double, ties
    to even. *)
Definition of_int64 (v : Z) : t := binary_normalize prec emax v 0 false.

(** The magnitude [m * 2^e] rounded to the nearest integer, halfway cases
    away from zero. *)
Definition round_magnitude (m : positive) (e : Z) : Z :=
  match e with
  | Z0 => Zpos m
  | Zpos _ => Z.shiftl (Zpos m) e
  | Zneg _ => (2 * Zpos m + 2 ^ (- e)) / 2 ^ (- e + 1)
  end.

(** The mathematical result of [std::llround], when there is one. *)
Definition rounded (a : t) : option Z :=
  match a with
  | S754_zero _ => Some 0
  | S754_finite s m e =>
      let r := round_magnitude m e in
      Some (if s then - r else r)
  | S754_infinity _ | S754_nan => None
  end.

(** [std::llround(a)]. When the argument is not finite or the rounded value
    does not fit [long long], the C library leaves the result unspecified:
    [unspecified a] stands for whatever the platform returns there. *)
Definition llround (unspecified : t -> Z) (a : t) : Z :=
  match rounded a with
  | Some r =>
      if (Std.LLONG_MIN <=? r) && (r <=? Std.LLONG_MAX) then r
      else unspecified a
  | None => unspecified a
  end.

End Double.

(** ** What the platform's C++ library decides

    Three behaviours of the standard library are left to the platform:
    parsing a decimal literal to the nearest double ([std::stod], which
    throws [std::out_of_range] on overflow), the default formatting of a
    double by [operator<<], and what [std::llround] returns outside its
    domain. *)
Class Platform : Type := {
  stod : string -> outcome Double.t;
  ostream_double : Double.t -> string;
  llround_unspecified : Double.t -> Z;
}.

(** ** Values: [enum class WofType], [struct UnitInfo], [class WofValue] *)

Module WofType.
Inductive t : Type :=
| Unknown
| Integer
| Double
| String
| Symbol.

Definition eqb (a b : t) : bool :=
  match a, b with
  | Unknown, Unknown | Integer, Integer | Double, Double
  | String, String | Symbol, Symbol => true
  | _, _ => false
  end.
End WofType.

Module UnitInfo.
Record t : Type := mk { name : string; scale : Double.t }.
End UnitInfo.

(** [std::variant<std::monostate, std::int64_t, double, std::string>]. *)
Inductive Storage : Type :=
| monostate
| int64_alt (v : Z)
| double_alt (d : Double.t)
| string_alt (s : string).

(** [a == b] on the variant: same alternative and equal contents. *)
Definition Storage_eqb (a b : Storage) : bool :=
  match a, b with
  | monostate, monostate => true
  | int64_alt x, int64_alt y => Z.eqb x y
  | double_alt x, double_alt y => Double.eqb x y
  | string_alt x, string_alt y => String.eqb x y
  | _, _ => false
  end.

(** [std::get<T>(value)]: throws when another alternative is active. *)
Definition get_int64 (s : Storage) : outcome Z :=
  match s with int64_alt v => Normal v | _ => Throw bad_variant_access end.
Definition get_double (s : Storage) : outcome Double.t :=
  match s with double_alt d => Normal d | _ => Throw bad_variant_access end.
Definition get_string (s : Storage) : outcome string :=
  match s with string_alt x => Normal x | _ => Throw bad_variant_access end.

Module WofValue.

(** The three public fields; [unit] is the [std::shared_ptr<UnitInfo>], empty
    or pointing to a unit. *)
Record t : Type := mk {
  type : WofType.t;
  value : Storage;
  unit : option UnitInfo.t;
}.

(** [WofValue()]: the default member initialisers. *)
Definition default : t := mk WofType.Unknown monostate None.

Definition make_int (v : Z) : t := mk WofType.Integer (int64_alt v) None.
Definition make_double (v : Double.t) : t := mk WofType.Double (double_alt v) None.
Definition make_string (s : string) : t := mk WofType.String (string_alt s) None.
Definition make_symbol (s : string) : t := mk WofType.Symbol (string_alt s) None.

Definition operator_eq (self other : t) : bool :=
  if negb (WofType.eqb (type self) (type other)) then false
  else
    match unit self, unit other with
    | Some u, Some u' =>
        if negb (String.eqb (UnitInfo.name u) (UnitInfo.name u'))
           || Double.neqb (UnitInfo.scale u) (UnitInfo.scale u')
        then false
        else Storage_eqb (value self) (value other)
    | Some _, None | None, Some _ => false
    | None, None => Storage_eqb (value self) (value other)
    end.

Definition operator_ne (self other : t) : bool := negb (operator_eq self other).

Definition to_string `{Platform} (self : t) : outcome string :=
  let body :=
    match type self with
    | WofType.Integer =>
        match get_int64 (value self) with
        | Normal v => Normal (Std.put_int64 v)
        | Throw e => Throw e
        end
    | WofType.Double =>
        match get_double (value self) with
        | Normal d => Normal (ostream_double d)
        | Throw e => Throw e
        end
    | WofType.String | WofType.Symbol => get_string (value self)
    | WofType.Unknown => Normal "<unknown>"%string
    end in
  match body with
  | Normal s =>
      match unit self with
      | Some u => Normal (s +:+ " " +:+ UnitInfo.name u)
      | None => Normal s
      end
  | Throw e => Throw e
  end.

Definition as_numeric (self : t) : outcome Double.t :=
  match type self with
  | WofType.Integer =>
      match get_int64 (value self) with
      | Normal v => Normal (Double.of_int64 v)
      | Throw e => Throw e
      end
  | WofType.Double => get_double (value self)
  | _ => Throw (runtime_error "WofValue::as_numeric: value is not numeric")
  end.

Definition is_numeric (self : t) : bool :=
  match type self with WofType.Integer | WofType.Double => true | _ => false end.

(** The invariant of the value model: the active alternative of [value] is
    the one the tag announces. Every value built by [make_int],
    [make_double], [make_string], [make_symbol] or the default constructor
    satisfies it. *)
Definition payload_matches_tag (self : t) : bool :=
  match type self, value self with
  | WofType.Unknown, monostate => true
  | WofType.Integer, int64_alt _ => true
  | WofType.Double, double_alt _ => true
  | WofType.String, string_alt _ | WofType.Symbol, string_alt _ => true
  | _, _ => false
  end.

End WofValue.

(** ** The helpers of the anonymous namespace *)

Definition string_empty (s : string) : bool :=
  match s with EmptyString => true | String _ _ => false end.

(** [s.push_back(c)]. *)
Definition push_back_char (s : string) (c : ascii) : string :=
  s +:+ String c EmptyString.

(** [s.front()] and [s.back()], on a non-empty string. *)
Definition front (s : string) : option ascii :=
  match s with String c _ => Some c | EmptyString => None end.

Fixpoint back (s : string) : option ascii :=
  match s with
  | EmptyString => None
  | String c EmptyString => Some c
  | String _ s' => back s'
  end.

Definition char_is (c : ascii) (o : option ascii) : bool :=
  match o with Some c' => Ascii.eqb c' c | None => false end.

(** The second loop of [trim]: [end] moves left over trailing white space. *)
Fixpoint trim_end (s : string) : string :=
  match s with
  | EmptyString => EmptyString
  | String c s' =>
      let r := trim_end s' in
      if string_empty r && Std.isspace c then EmptyString else String c r
  end.

(** The first loop of [trim] moves [start] right over leading white space,
    which is what [Std.skip_space] computes. *)
Definition trim (s : string) : string := trim_end (Std.skip_space s).

Fixpoint all_digits (s : string) : bool :=
  match s with
  | EmptyString => true
  | String c s' => if negb (Std.isdigit c) then false else all_digits s'
  end.

Definition is_integer_token (token : string) : bool :=
  match token with
  | EmptyString => false
  | String c rest =>
      let after_sign :=
        if Ascii.eqb c "+" || Ascii.eqb c "-" then rest else token in
      if string_empty after_sign then false else all_digits after_sign
  end.

(** The loop of [is_float_token] with its two flags. *)
Fixpoint float_scan (s : string) (seen_dot any_digit : bool) : bool :=
  match s with
  | EmptyString => any_digit && seen_dot
  | String c s' =>
      if Std.isdigit c then float_scan s' seen_dot true
      else if Ascii.eqb c "." then
        if seen_dot then false else float_scan s' true any_digit
      else false
  end.

Definition is_float_token (token : string) : bool :=
  match token with
  | EmptyString => false
  | String c rest =>
      let after_sign :=
        if Ascii.eqb c "+" || Ascii.eqb c "-" then rest else token in
      float_scan after_sign false false
  end.

(** The first two tests of [dispatch_token]: the token is not empty and its
    first character is '#'; the token has at least two characters and both
    [token.front()] and [token.back()] are the double-quote character. *)
Definition is_comment_token (token : string) : bool :=
  negb (string_empty token) && char_is "#" (front token).

Definition is_quoted_token (token : string) : bool :=
  (2 <=? String.length token)%nat
  && char_is Std.dquote (front token)
  && char_is Std.dquote (back token).

(** The state of the loop of [simple_tokenize]. *)
Record tokenizer_state : Type := mk_tokenizer {
  tokens : list string;
  current : string;
  in_quotes : bool;
}.

Definition tokenize_step (st : tokenizer_state) (c : ascii) : tokenizer_state :=
  if Ascii.eqb c Std.dquote then
    let cur := push_back_char (current st) c in
    if in_quotes st
    then mk_tokenizer (tokens st ++ [cur]) EmptyString (negb (in_quotes st))
    else mk_tokenizer (tokens st) cur (negb (in_quotes st))
  else if Std.isspace c && negb (in_quotes st) then
    if negb (string_empty (current st))
    then mk_tokenizer (tokens st ++ [current st]) EmptyString (in_quotes st)
    else st
  else mk_tokenizer (tokens st) (push_back_char (current st) c) (in_quotes st).

Fixpoint tokenize_loop (line : string) (st : tokenizer_state) : tokenizer_state :=
  match line with
  | EmptyString => st
  | String c rest => tokenize_loop rest (tokenize_step st c)
  end.

Definition tokenize_flush (st : tokenizer_state) : list string :=
  if negb (string_empty (current st)) then tokens st ++ [current st]
  else tokens st.

(** No token, an empty [current], not in quotes. *)
Definition tokenizer_init : tokenizer_state := mk_tokenizer [] EmptyString false.

Definition simple_tokenize (line : string) : list string :=
  tokenize_flush (tokenize_loop line tokenizer_init).

(** ** The interpreter: [class WoflangInterpreter] *)

(** The nine lambdas the constructor registers, by the name each is
    registered under. *)
Inductive CoreOp : Type :=
| op_add | op_sub | op_mul | op_div
| op_dup | op_drop | op_swap
| op_print | op_dot_s.

Module WoflangInterpreter.
Section Interpreter.
Context `{Platform} {Plugin : Type}.

(** [WofOpHandler = std::function<void(WoflangInterpreter&)>]: a closure is
    either one of the constructor's lambdas or a closure a plugin supplied;
    [Plugin] is the type of the latter. *)
Inductive WofOpHandler : Type :=
| core_lambda (o : CoreOp)
| plugin_lambda (p : Plugin).

(** The members [stack] and [ops], and the text written to [std::cout] so
    far (the stream is a global of the program; it is part of the state here
    because [print] and [.s] write to it). The list of plugin handles is used
    by the loader and the destructor only and is left out. *)
Record t : Type := mk {
  stack : list WofValue.t;
  ops : gmap string WofOpHandler;
  cout : string;
}.

(** Code that runs against the interpreter: it returns or throws, and leaves
    a state behind in both cases. *)
Definition M (A : Type) : Type := t -> outcome A * t.

(** What calling a plugin's closure does. *)
Class PluginHost : Type := run_plugin : Plugin -> M unit.
Context `{PluginHost}.

Definition ret {A} (a : A) : M A := fun i => (Normal a, i).

Definition bind {A B} (m : M A) (k : A -> M B) : M B :=
  fun i =>
    match m i with
    | (Normal a, i') => k a i'
    | (Throw e, i') => (Throw e, i')
    end.

Local Notation "x <- c1 ;; c2" := (bind c1 (fun x => c2))
  (at level 100, c1 at next level, right associativity).
Local Notation "c1 ;; c2" := (bind c1 (fun _ => c2))
  (at level 100, right associativity).

(** A result of the standard library, rethrown as it is. *)
Definition lift {A} (o : outcome A) : M A := fun i => (o, i).

(** [[[noreturn]] void error(msg)]: throws [std::runtime_error(msg)]. *)
Definition error {A} (msg : string) : M A :=
  fun i => (Throw (runtime_error msg), i).

Definition when (b : bool) (m : M unit) : M unit := if b then m else ret tt.

(** The interpreter [i] with [s] for its stack. *)
Definition with_stack (s : list WofValue.t) (i : t) : t :=
  mk s (ops i) (cout i).

Definition get_stack : M (list WofValue.t) := fun i => (Normal (stack i), i).
Definition set_stack (s : list WofValue.t) : M unit :=
  fun i => (Normal tt, with_stack s i).
Definition get_ops : M (gmap string WofOpHandler) := fun i => (Normal (ops i), i).

(** [std::cout << s]. *)
Definition write (s : string) : M unit :=
  fun i => (Normal tt, mk (stack i) (ops i) (cout i +:+ s)).

(** [std::endl]. *)
Definition endl : string := String "010"%char EmptyString.

(** [stack.back()]; the callers check that the vector is not empty first. *)
Definition vector_back (s : list WofValue.t) : WofValue.t :=
  default WofValue.default (last s).

Definition vector_empty (s : list WofValue.t) : bool :=
  match s with [] => true | _ :: _ => false end.

Definition push (v : WofValue.t) : M unit :=
  s <- get_stack ;; set_stack (s ++ [v]).

Definition stack_has (n : nat) : M bool :=
  s <- get_stack ;; ret (n <=? length s)%nat.

Definition pop : M WofValue.t :=
  s <- get_stack ;;
  when (vector_empty s) (error "stack underflow") ;;
  let v := vector_back s in
  set_stack (removelast s) ;;
  ret v.

Definition pop_int : M Z :=
  v <- pop ;;
  if WofType.eqb (WofValue.type v) WofType.Integer then
    lift (get_int64 (WofValue.value v))
  else if WofType.eqb (WofValue.type v) WofType.Double then
    d <- lift (get_double (WofValue.value v)) ;;
    ret (Double.llround llround_unspecified d)
  else error "pop_int: value is not numeric".

Definition pop_double : M Double.t :=
  v <- pop ;;
  if WofType.eqb (WofValue.type v) WofType.Double then
    lift (get_double (WofValue.value v))
  else if WofType.eqb (WofValue.type v) WofType.Integer then
    n <- lift (get_int64 (WofValue.value v)) ;;
    ret (Double.of_int64 n)
  else error "pop_double: value is not numeric".

Definition pop_numeric : M Double.t :=
  v <- pop ;;
  if WofType.eqb (WofValue.type v) WofType.Double then
    lift (get_double (WofValue.value v))
  else if WofType.eqb (WofValue.type v) WofType.Integer then
    n <- lift (get_int64 (WofValue.value v)) ;;
    ret (Double.of_int64 n)
  else error "pop_numeric: value is not numeric".

Definition pop_string : M string :=
  v <- pop ;;
  if WofType.eqb (WofValue.type v) WofType.String
     || WofType.eqb (WofValue.type v) WofType.Symbol then
    lift (get_string (WofValue.value v))
  else error "pop_string: value is not a string".

Definition pop_symbol : M string :=
  v <- pop ;;
  if WofType.eqb (WofValue.type v) WofType.Symbol then
    lift (get_string (WofValue.value v))
  else error "pop_symbol: value is not a symbol".

Definition pop_bool : M bool :=
  v <- pop ;;
  if WofType.eqb (WofValue.type v) WofType.Integer then
    n <- lift (get_int64 (WofValue.value v)) ;;
    ret (negb (n =? 0))
  else if WofType.eqb (WofValue.type v) WofType.Double then
    d <- lift (get_double (WofValue.value v)) ;;
    ret (Double.neqb d Double.zero)
  else if WofType.eqb (WofValue.type v) WofType.String
          || WofType.eqb (WofValue.type v) WofType.Symbol then
    s <- lift (get_string (WofValue.value v)) ;;
    ret (negb (string_empty s) && negb (String.eqb s "0")
         && negb (String.eqb s "false") && negb (String.eqb s "False"))
  else ret false.

(** The loop of [print_stack], from index [i] on. The pieces of a line are
    written left to right, so the index is out before [to_string] runs. *)
Fixpoint print_entries (i : nat) (l : list WofValue.t) : M unit :=
  match l with
  | [] => ret tt
  | v :: l' =>
      write ("  [" +:+ Std.put_unsigned (Z.of_nat i) +:+ "] ") ;;
      s <- lift (WofValue.to_string v) ;;
      write (s +:+ endl) ;;
      print_entries (S i) l'
  end.

Definition print_stack : M unit :=
  s <- get_stack ;;
  write ("Stack [" +:+ Std.put_unsigned (Z.of_nat (length s)) +:+ "]" +:+ endl) ;;
  print_entries 0 s.

Definition clear_stack : M unit := set_stack [].

(** [std::swap(stk[stk.size() - 1], stk[stk.size() - 2])], on a vector of at
    least two elements. *)
Definition swap_top (s : list WofValue.t) : list WofValue.t :=
  let n := length s in
  match s !! (n - 1)%nat, s !! (n - 2)%nat with
  | Some a, Some b => <[(n - 2)%nat := a]> (<[(n - 1)%nat := b]> s)
  | _, _ => s
  end.

(** The arithmetic lambdas share their first two lines. *)
Definition arith (f : Double.t -> Double.t -> Double.t) : M unit :=
  b <- pop_numeric ;;
  a <- pop_numeric ;;
  push (WofValue.make_double (f a b)).

(** The bodies of the constructor's lambdas. *)
Definition core_op (o : CoreOp) : M unit :=
  match o with
  | op_add => arith Double.add
  | op_sub => arith Double.sub
  | op_mul => arith Double.mul
  | op_div =>
      b <- pop_numeric ;;
      a <- pop_numeric ;;
      when (Double.eqb b Double.zero) (error "division by zero") ;;
      push (WofValue.make_double (Double.div a b))
  | op_dup =>
      ok <- stack_has 1 ;;
      when (negb ok) (error "dup requires at least one value on the stack") ;;
      stk <- get_stack ;;
      let v := vector_back stk in
      push v
  | op_drop =>
      ok <- stack_has 1 ;;
      when (negb ok) (error "drop requires at least one value on the stack") ;;
      _ <- pop ;;
      ret tt
  | op_swap =>
      ok <- stack_has 2 ;;
      when (negb ok) (error "swap requires at least two values on the stack") ;;
      stk <- get_stack ;;
      set_stack (swap_top stk)
  | op_print =>
      ok <- stack_has 1 ;;
      if negb ok then write ("(stack empty)" +:+ endl)
      else
        stk <- get_stack ;;
        s <- lift (WofValue.to_string (vector_back stk)) ;;
        write (s +:+ endl)
  | op_dot_s => print_stack
  end.

(** Calling a handler on the interpreter itself. *)
Definition call (handler : WofOpHandler) : M unit :=
  match handler with
  | core_lambda o => core_op o
  | plugin_lambda p => run_plugin p
  end.

(** [ops[name] = std::move(handler)]. *)
Definition register_op (name : string) (handler : WofOpHandler) : M unit :=
  fun i => (Normal tt, mk (stack i) (<[name := handler]> (ops i)) (cout i)).

Definition dispatch_token (token : string) : M unit :=
  if is_comment_token token then ret tt
  else if is_quoted_token token then
    let inner := substring 1 (String.length token - 2) token in
    push (WofValue.make_string inner)
  else if is_integer_token token then
    v <- lift (Std.stoll token) ;;
    push (WofValue.make_int v)
  else if is_float_token token then
    v <- lift (stod token) ;;
    push (WofValue.make_double v)
  else
    table <- get_ops ;;
    match table !! token with
    | Some handler => call handler
    | None => push (WofValue.make_symbol token)
    end.

(** The range-for of [exec_line]: the first exception ends it. *)
Fixpoint dispatch_all (toks : list string) : M unit :=
  match toks with
  | [] => ret tt
  | tok :: rest => dispatch_token tok ;; dispatch_all rest
  end.

Definition exec_line (line : string) : M unit :=
  let trimmed := trim line in
  if string_empty trimmed then ret tt
  else dispatch_all (simple_tokenize trimmed).

(** The constructor: an empty stack, an empty table, then the nine
    registrations in the order of the source. [out] is what [std::cout]
    holds at that moment. *)
Definition construct (out : string) : t :=
  snd ((register_op "+" (core_lambda op_add) ;;
        register_op "-" (core_lambda op_sub) ;;
        register_op "*" (core_lambda op_mul) ;;
        register_op "/" (core_lambda op_div) ;;
        register_op "dup" (core_lambda op_dup) ;;
        register_op "drop" (core_lambda op_drop) ;;
        register_op "swap" (core_lambda op_swap) ;;
        register_op "print" (core_lambda op_print) ;;
        register_op ".s" (core_lambda op_dot_s))
       (mk [] ∅ out)).

(** The loop of [exec_script]: one [exec_line] per line read, until the
    file ends or a line throws. *)
Fixpoint exec_lines (lines : list string) : M unit :=
  match lines with
  | [] => ret tt
  | line :: rest => exec_line line ;; exec_lines rest
  end.

(** [exec_script]. The file system is the function [fs]: it gives the lines
    [std::getline] reads from the file, or nothing when the file cannot be
    opened. The path is its text. *)
Definition exec_script (fs : string -> option (list string))
    (filename : string) : M unit :=
  match fs filename with
  | None => error ("failed to open script: " +:+ filename)
  | Some lines => exec_lines lines
  end.

(** [ex.what()]: the message of a [runtime_error], the name of the throwing
    function for the exceptions of the string conversions, and a text of the
    library's choosing for [bad_variant_access]. *)
Definition what (bad_variant_text : string) (e : exception) : string :=
  match e with
  | runtime_error msg => msg
  | bad_variant_access => bad_variant_text
  | invalid_argument w => w
  | out_of_range w => w
  end.

(** The loop of [repl]. [cin] holds the lines still to be read and [cerr]
    what [std::cerr] holds; the loop ends when [std::getline] fails, and it
    returns the interpreter and [std::cerr]. *)
Fixpoint repl_loop (bad_variant_text : string) (cin : list string)
    (cerr : string) (i : t) : t * string :=
  let i := snd (write "wofl> " i) in
  match cin with
  | [] => (i, cerr)
  | line :: cin' =>
      match exec_line line i with
      | (Normal _, i') => repl_loop bad_variant_text cin' cerr i'
      | (Throw ex, i') =>
          repl_loop bad_variant_text cin'
            (cerr +:+ "Error: " +:+ what bad_variant_text ex +:+ endl) i'
      end
  end.

Definition repl (bad_variant_text : string) (cin : list string)
    (cerr : string) (i : t) : t * string :=
  let i := snd (write ("Woflang REPL. Ctrl+D or Ctrl+Z to exit." +:+ endl) i) in
  repl_loop bad_variant_text cin cerr i.

End Interpreter.

Arguments WofOpHandler : clear implicits.
Arguments t : clear implicits.
Arguments PluginHost : clear implicits.
Arguments M : clear implicits.

End WoflangInterpreter.

(** ** A concrete platform and two plugin closures

    Used to run the definitions on concrete inputs. *)
Module Demo.

(** A platform on which [std::stod] reads nothing but "0.5", doubles print
    as "<double>", and [std::llround] returns [LLONG_MIN] outside its
    domain (what x86-64 does). *)
#[export] Instance platform : Platform := {|
  stod := fun s =>
    if String.eqb s "0.5"
    then Normal (Double.div (Double.of_int64 1) (Double.of_int64 2))
    else Throw (out_of_range "stod");
  ostream_double := fun _ => "<double>"%string;
  llround_unspecified := fun _ => Std.LLONG_MIN;
|}.

(** Two closures a plugin could register: one pushes the integer 42, the
    other empties the stack. *)
Inductive plugin : Type := push_answer | slay_stack.

#[export] Instance host : WoflangInterpreter.PluginHost plugin :=
  fun p =>
    match p with
    | push_answer => WoflangInterpreter.push (WofValue.make_int 42)
    | slay_stack => WoflangInterpreter.clear_stack
    end.

(** A freshly constructed interpreter, nothing written to [std::cout] yet. *)
Definition fresh : WoflangInterpreter.t plugin :=
  WoflangInterpreter.construct EmptyString.

(** The same interpreter with the stack [s]. *)
Definition on_stack (s : list WofValue.t) : WoflangInterpreter.t plugin :=
  WoflangInterpreter.with_stack s fresh.

Definition nan : Double.t := S754_nan.

(** The word say, a space, an opening double quote and the words hello
    world: the quotation is never closed. *)
Definition open_quote_line : string :=
  "say " +:+ String Std.dquote "hello world".

(** A line of core operators only that leaves a single NaN on the stack:
    the largest integer literal is squared five times, which overflows to
    infinity, and infinity minus infinity is NaN. *)
Definition nan_line : string :=
  "9223372036854775807 dup * dup * dup * dup * dup * dup -".

End Demo.

(** ** Vocabulary of the properties *)

(** The value carries a NaN: as a Double payload or as the scale of its
    unit. *)
Definition carries_nan (v : WofValue.t) : bool :=
  match WofValue.value v with
  | double_alt d => Double.is_nan d
  | _ => false
  end
  || match WofValue.unit v with
     | Some u => Double.is_nan (UnitInfo.scale u)
     | None => false
     end.

(** The truth value the typed pop assigns to a value, in the words of the
    claim: Integer and Double values compare against zero, String and Symbol
    values are true unless their text is empty, "0", "false" or "False",
    and an Unknown value is false. *)
Definition truth_value (v : WofValue.t) : bool :=
  match WofValue.type v, WofValue.value v with
  | WofType.Integer, int64_alt n => negb (n =? 0)
  | WofType.Double, double_alt d => negb (Double.eqb d Double.zero)
  | (WofType.String | WofType.Symbol), string_alt s =>
      if decide (s ∈ [EmptyString; "0"; "false"; "False"]%string)
      then false else true
  | _, _ => false
  end.

(** A finite double as the fraction [num / den], [den] a power of two. *)
Definition fraction (a : Double.t) : option (Z * Z) :=
  match a with
  | S754_zero _ => Some (0, 1)
  | S754_finite s m e =>
      let m' := if s then Zneg m else Zpos m in
      Some (if 0 <=? e then (m' * 2 ^ e, 1) else (m', 2 ^ (- e)))
  | S754_infinity _ | S754_nan => None
  end.

(** [r] is an integer nearest to the finite double [a]: no integer is
    strictly closer. *)
Definition nearest_integer (a : Double.t) (r : Z) : Prop :=
  match fraction a with
  | Some (num, den) =>
      forall n : Z, Z.abs (num - r * den) <= Z.abs (num - n * den)
  | None => False
  end.

(** The integer [n] is strictly closer to the finite double [a] than the
    integer [r] is. *)
Definition strictly_closer (a : Double.t) (n r : Z) : bool :=
  match fraction a with
  | Some (num, den) => Z.abs (num - n * den) <? Z.abs (num - r * den)
  | None => false
  end.

(** No double-quote character in the text. *)
Fixpoint no_quote (s : string) : bool :=
  match s with
  | EmptyString => true
  | String c s' => negb (Ascii.eqb c Std.dquote) && no_quote s'
  end.

(** A run of digits with no superfluous leading zero. *)
Definition no_leading_zero (digits : string) : bool :=
  match digits with
  | String c (String _ _) => negb (Ascii.eqb c "0")
  | _ => true
  end.

(** What [std::stoll] computes on an integer literal: the sign, and the value
    of the digits after it. *)
Definition literal_value (token : string) : Z :=
  match token with
  | String c rest =>
      if Ascii.eqb c "-" then - fst (Std.read_digits rest 0 false)
      else if Ascii.eqb c "+" then fst (Std.read_digits rest 0 false)
      else fst (Std.read_digits token 0 false)
  | EmptyString => 0
  end.

(** The integer literals that are the decimal rendering of some integer: no
    plus sign, no leading zero, and no minus sign in front of zero. *)
Definition canonical_integer_token (token : string) : bool :=
  is_integer_token token
  && match token with
     | String c digits =>
         if Ascii.eqb c "+" then false
         else if Ascii.eqb c "-"
         then no_leading_zero digits && negb (String.eqb digits "0")
         else no_leading_zero token
     | EmptyString => false
     end.

(** ** The plugin of symbolic simplification rules

    The four lambdas of [SymbolicSimplifyRulesPlugin::register_ops]. They work
    on [interp.stack] directly, print to [std::cout], and print a notice
    instead of throwing when the stack is too short. *)
Module SymbolicSimplifyRulesPlugin.

Inductive op : Type :=
| simplify_sum
| simplify_mul_one
| simplify_add_zero
| simplify_mul_zero.

Section Lambdas.
Context `{Platform} {Plugin : Type}.

Local Notation "x <- c1 ;; c2" := (WoflangInterpreter.bind c1 (fun x => c2))
  (at level 100, c1 at next level, right associativity).
Local Notation "c1 ;; c2" := (WoflangInterpreter.bind c1 (fun _ => c2))
  (at level 100, right associativity).

(** [auto v = interp.stack.back(); interp.stack.pop_back();]. *)
Definition take_back : WoflangInterpreter.M Plugin WofValue.t :=
  s <- WoflangInterpreter.get_stack ;;
  WoflangInterpreter.set_stack (removelast s) ;;
  WoflangInterpreter.ret (WoflangInterpreter.vector_back s).

(** [interp.stack.push_back(v)]. *)
Definition push_back (v : WofValue.t) : WoflangInterpreter.M Plugin unit :=
  s <- WoflangInterpreter.get_stack ;;
  WoflangInterpreter.set_stack (s ++ [v]).

(** [v.type == WofType::Integer && std::get<int64_t>(v.value) == k]: the
    payload is read only when the tag is Integer. *)
Definition is_integer (k : Z) (v : WofValue.t) : WoflangInterpreter.M Plugin bool :=
  if WofType.eqb (WofValue.type v) WofType.Integer then
    n <- WoflangInterpreter.lift (get_int64 (WofValue.value v)) ;;
    WoflangInterpreter.ret (n =? k)
  else WoflangInterpreter.ret false.

Definition newline : string := String "010"%char EmptyString.

Definition lambda (o : op) : WoflangInterpreter.M Plugin unit :=
  match o with
  | simplify_sum =>
      s <- WoflangInterpreter.get_stack ;;
      if (length s <? 2)%nat then
        WoflangInterpreter.write
          ("[simplify_sum] needs at least 2 values" +:+ newline)
      else
        second <- take_back ;;
        first <- take_back ;;
        if WofType.eqb (WofValue.type first) WofType.Symbol
           && WofType.eqb (WofValue.type second) WofType.Symbol then
          first_sym <- WoflangInterpreter.lift (get_string (WofValue.value first)) ;;
          second_sym <- WoflangInterpreter.lift (get_string (WofValue.value second)) ;;
          if String.eqb first_sym second_sym then
            WoflangInterpreter.write
              ("[simplify_sum] " +:+ first_sym +:+ " + " +:+ second_sym
               +:+ " => 2 * " +:+ first_sym +:+ newline) ;;
            push_back (WofValue.make_int 2) ;;
            push_back first
          else
            push_back first ;;
            push_back second
        else
          push_back first ;;
          push_back second
  | simplify_mul_one =>
      s <- WoflangInterpreter.get_stack ;;
      if (length s <? 2)%nat then
        WoflangInterpreter.write
          ("[simplify_mul_one] needs at least 2 values" +:+ newline)
      else
        multiplier <- take_back ;;
        value <- take_back ;;
        one <- is_integer 1 multiplier ;;
        if one then
          WoflangInterpreter.write ("[simplify_mul_one] X * 1 => X" +:+ newline) ;;
          push_back value
        else
          push_back value ;;
          push_back multiplier
  | simplify_add_zero =>
      s <- WoflangInterpreter.get_stack ;;
      if (length s <? 2)%nat then
        WoflangInterpreter.write
          ("[simplify_add_zero] needs at least 2 values" +:+ newline)
      else
        addend <- take_back ;;
        value <- take_back ;;
        zero <- is_integer 0 addend ;;
        if zero then
          WoflangInterpreter.write ("[simplify_add_zero] X + 0 => X" +:+ newline) ;;
          push_back value
        else
          push_back value ;;
          push_back addend
  | simplify_mul_zero =>
      s <- WoflangInterpreter.get_stack ;;
      if (length s <? 2)%nat then
        WoflangInterpreter.write
          ("[simplify_mul_zero] needs at least 2 values" +:+ newline)
      else
        multiplier <- take_back ;;
        value <- take_back ;;
        zero <- is_integer 0 multiplier ;;
        if zero then
          WoflangInterpreter.write ("[simplify_mul_zero] X * 0 => 0" +:+ newline) ;;
          push_back (WofValue.make_int 0)
        else
          push_back value ;;
          push_back multiplier
  end.

End Lambdas.

(** Calling a closure of this plugin runs its lambda. *)
#[export] Instance host `{Platform} : WoflangInterpreter.PluginHost op :=
  fun o => lambda o.

(** [register_ops], which is all [register_plugin] does. *)
Definition register_ops `{Platform} : WoflangInterpreter.M op unit :=
  WoflangInterpreter.bind
    (WoflangInterpreter.register_op "simplify_sum"
       (WoflangInterpreter.plugin_lambda simplify_sum)) (fun _ =>
  WoflangInterpreter.bind
    (WoflangInterpreter.register_op "simplify_mul_one"
       (WoflangInterpreter.plugin_lambda simplify_mul_one)) (fun _ =>
  WoflangInterpreter.bind
    (WoflangInterpreter.register_op "simplify_add_zero"
       (WoflangInterpreter.plugin_lambda simplify_add_zero)) (fun _ =>
  WoflangInterpreter.bind
    (WoflangInterpreter.register_op "simplify_mul_zero"
       (WoflangInterpreter.plugin_lambda simplify_mul_zero)) (fun _ =>
  WoflangInterpreter.write ("[simplify_rules] Plugin loaded." +:+ newline))))).

End SymbolicSimplifyRulesPlugin.

(** ** The primality test of the benchmark

    [is_prime_int64]. The loop [for (i = 5; i * i <= n; i += 6)] multiplies
    64-bit signed integers; the result is [None] when a product leaves the
    64-bit range, where the behaviour of the program is undefined. [fuel]
    bounds the number of turns of the loop. *)
Fixpoint is_prime_loop (fuel : nat) (n i : Z) : option bool :=
  match fuel with
  | O => None
  | S fuel' =>
      if Std.LLONG_MAX <? i * i then None
      else if i * i <=? n then
        if (Z.rem n i =? 0) || (Z.rem n (i + 2) =? 0) then Some false
        else is_prime_loop fuel' n (i + 6)
      else Some true
  end.

Definition is_prime_int64 (n : Z) : option bool :=
  if n <=? 1 then Some false
  else if n <=? 3 then Some true
  else if (Z.rem n 2 =? 0) || (Z.rem n 3 =? 0) then Some false
  else is_prime_loop (Z.to_nat (Z.sqrt n)) n 5.

(** ** Vocabulary of the further properties *)

(** The line without the white space that lies outside quotations;
    [in_quotes] tells whether the text starts inside one. *)
Fixpoint strip_unquoted_space (line : string) (in_quotes : bool) : string :=
  match line with
  | EmptyString => EmptyString
  | String c rest =>
      if Ascii.eqb c Std.dquote
      then String c (strip_unquoted_space rest (negb in_quotes))
      else if Std.isspace c && negb in_quotes
      then strip_unquoted_space rest in_quotes
      else String c (strip_unquoted_space rest in_quotes)
  end.

(** The tokens written one after the other. *)
Definition concat_tokens (toks : list string) : string :=
  fold_right String.append EmptyString toks.

(** No white-space character in the text; nothing but white space in it. *)
Fixpoint no_space (s : string) : bool :=
  match s with
  | EmptyString => true
  | String c s' => negb (Std.isspace c) && no_space s'
  end.

Fixpoint all_space (s : string) : bool :=
  match s with
  | EmptyString => true
  | String c s' => Std.isspace c && all_space s'
  end.

(** The float literals, by their shape: an optional sign, digits, one
    decimal point, digits, with a digit on one side of the point at least. *)
Definition float_literal_shape (token : string) : Prop :=
  exists sign before after : string,
    token = sign +:+ before +:+ "." +:+ after
    /\ (sign = EmptyString \/ sign = "+"%string \/ sign = "-"%string)
    /\ all_digits before = true
    /\ all_digits after = true
    /\ (before <> EmptyString \/ after <> EmptyString).

(** The names the constructor registers, each with its lambda, in the order
    of the source. *)
Definition core_table : list (string * CoreOp) :=
  [("+", op_add); ("-", op_sub); ("*", op_mul); ("/", op_div);
   ("dup", op_dup); ("drop", op_drop); ("swap", op_swap);
   ("print", op_print); (".s", op_dot_s)]%string.

(** The double is a zero, of either sign. *)
Definition is_zero (a : Double.t) : bool :=
  match a with S754_zero _ => true | _ => false end.

(** The rules of the simplification plugin, as its comments state them:
    X + X -> 2 * X; X * 1 -> X; X + 0 -> X; X * 0 -> 0. [x] is the value
    below the top and [top] the top value. *)
Definition integer_is (k : Z) (v : WofValue.t) : bool :=
  match WofValue.type v, WofValue.value v with
  | WofType.Integer, int64_alt n => n =? k
  | _, _ => false
  end.

Definition rule_applies (o : SymbolicSimplifyRulesPlugin.op)
    (x top : WofValue.t) : bool :=
  match o with
  | SymbolicSimplifyRulesPlugin.simplify_sum =>
      match WofValue.type x, WofValue.value x,
            WofValue.type top, WofValue.value top with
      | WofType.Symbol, string_alt a, WofType.Symbol, string_alt b =>
          String.eqb a b
      | _, _, _, _ => false
      end
  | SymbolicSimplifyRulesPlugin.simplify_mul_one => integer_is 1 top
  | SymbolicSimplifyRulesPlugin.simplify_add_zero => integer_is 0 top
  | SymbolicSimplifyRulesPlugin.simplify_mul_zero => integer_is 0 top
  end.

Definition rule_result (o : SymbolicSimplifyRulesPlugin.op)
    (x : WofValue.t) : list WofValue.t :=
  match o with
  | SymbolicSimplifyRulesPlugin.simplify_sum => [WofValue.make_int 2; x]
  | SymbolicSimplifyRulesPlugin.simplify_mul_one => [x]
  | SymbolicSimplifyRulesPlugin.simplify_add_zero => [x]
  | SymbolicSimplifyRulesPlugin.simplify_mul_zero => [WofValue.make_int 0]
  end.

Definition rule_name (o : SymbolicSimplifyRulesPlugin.op) : string :=
  match o with
  | SymbolicSimplifyRulesPlugin.simplify_sum => "simplify_sum"
  | SymbolicSimplifyRulesPlugin.simplify_mul_one => "simplify_mul_one"
  | SymbolicSimplifyRulesPlugin.simplify_add_zero => "simplify_add_zero"
  | SymbolicSimplifyRulesPlugin.simplify_mul_zero => "simplify_mul_zero"
  end.

(** One turn of the interactive loop seen from the interpreter: the prompt
    is written and the line is executed; whether the line returned or threw
    is forgotten. *)
Definition session_step `{Platform} {Plugin : Type}
    `{!WoflangInterpreter.PluginHost Plugin}
    (j : WoflangInterpreter.t Plugin) (line : string)
    : WoflangInterpreter.t Plugin :=
  snd (WoflangInterpreter.exec_line line
         (snd (WoflangInterpreter.write "wofl> " j))).

(** A word: not empty, no white space, no double quote. *)
Definition is_word (w : string) : bool :=
  negb (string_empty w) && no_space w && no_quote w.

(** ** Two more concrete inputs *)
Module Demo2.

(** A file system with one script of three lines, the second of which
    divides by zero. *)
Definition fs (filename : string) : option (list string) :=
  if String.eqb filename "demo.wof"
  then Some ["1 2 +"; "5 0 /"; "99"]%string
  else None.

End Demo2.

(** * Properties *)

Module WI := WoflangInterpreter.

(** ** Stack primitives *)
Section StackLemmas.
Context `{Platform} {Plugin : Type} `{!WI.PluginHost Plugin}.
Implicit Types (i : WI.t Plugin) (v a b : WofValue.t) (rest s : list WofValue.t).

Lemma stack_with_stack s i : WI.stack (WI.with_stack s i) = s.
Proof. reflexivity. Qed.

Lemma with_stack_twice s s' i :
  WI.with_stack s (WI.with_stack s' i) = WI.with_stack s i.
Proof. reflexivity. Qed.

Lemma with_stack_same i : WI.with_stack (WI.stack i) i = i.
Proof. by destruct i. Qed.

Lemma vector_empty_snoc rest v : WI.vector_empty (rest ++ [v]) = false.
Proof. by destruct rest. Qed.

Lemma vector_back_snoc rest v : WI.vector_back (rest ++ [v]) = v.
Proof. unfold WI.vector_back. by rewrite last_snoc. Qed.

Lemma pop_snoc i rest v :
  WI.stack i = rest ++ [v] ->
  WI.pop i = (Normal v, WI.with_stack rest i).
Proof.
  intros Hs. unfold WI.pop, WI.bind, WI.get_stack, WI.when. rewrite Hs.
  rewrite vector_empty_snoc, vector_back_snoc. cbn.
  by rewrite removelast_last.
Qed.

Lemma pop_empty i :
  WI.stack i = [] ->
  WI.pop i = (Throw (runtime_error "stack underflow"), i).
Proof.
  intros Hs. unfold WI.pop, WI.bind, WI.get_stack, WI.when. by rewrite Hs.
Qed.

Lemma push_run v i :
  WI.push v i = (Normal tt, WI.with_stack (WI.stack i ++ [v]) i).
Proof. reflexivity. Qed.

(** [as_numeric] succeeds exactly on the Integer- and Double-tagged values
    whose payload matches the tag. *)
Lemma as_numeric_normal v :
  (exists d, WofValue.as_numeric v = Normal d) <->
  WofValue.is_numeric v = true /\ WofValue.payload_matches_tag v = true.
Proof.
  destruct v as [ty [ | n | d | x] u]; destruct ty;
    unfold WofValue.as_numeric, WofValue.is_numeric,
      WofValue.payload_matches_tag; cbn;
    split; try (intros [d' Hd]; discriminate); try (intros [? ?]; discriminate);
    eauto.
Qed.

(** [pop_numeric] reads a numeric value the way [as_numeric] does. *)
Lemma pop_numeric_snoc i rest v d :
  WI.stack i = rest ++ [v] ->
  WofValue.as_numeric v = Normal d ->
  WI.pop_numeric i = (Normal d, WI.with_stack rest i).
Proof.
  intros Hs Hv. unfold WI.pop_numeric, WI.bind. rewrite (pop_snoc _ _ _ Hs).
  destruct v as [ty [ | n | d' | x] u]; destruct ty; cbn in *;
    try discriminate; simplify_eq; reflexivity.
Qed.

End StackLemmas.

(** ** Core arithmetic *)
Section Arithmetic.
Context `{Platform} {Plugin : Type} `{!WI.PluginHost Plugin}.
Implicit Types (i : WI.t Plugin) (a b : WofValue.t) (rest : list WofValue.t).

(** Both operands are popped, top first, before anything else happens. *)
Lemma arith_run f i rest a b da db :
  WI.stack i = rest ++ [a; b] ->
  WofValue.as_numeric a = Normal da ->
  WofValue.as_numeric b = Normal db ->
  WI.arith f i =
    (Normal tt, WI.with_stack (rest ++ [WofValue.make_double (f da db)]) i).
Proof.
  intros Hs Ha Hb. unfold WI.arith, WI.bind.
  assert (Hs' : WI.stack i = (rest ++ [a]) ++ [b]) by (by rewrite <- app_assoc).
  rewrite (pop_numeric_snoc i (rest ++ [a]) b db Hs' Hb).
  rewrite (pop_numeric_snoc (WI.with_stack (rest ++ [a]) i) rest a da
             (stack_with_stack _ _) Ha).
  reflexivity.
Qed.

Lemma div_run i rest a b da db :
  WI.stack i = rest ++ [a; b] ->
  WofValue.as_numeric a = Normal da ->
  WofValue.as_numeric b = Normal db ->
  WI.core_op op_div i =
    if Double.eqb db Double.zero
    then (Throw (runtime_error "division by zero"), WI.with_stack rest i)
    else (Normal tt,
          WI.with_stack (rest ++ [WofValue.make_double (Double.div da db)]) i).
Proof.
  intros Hs Ha Hb. unfold WI.core_op, WI.bind.
  assert (Hs' : WI.stack i = (rest ++ [a]) ++ [b]) by (by rewrite <- app_assoc).
  rewrite (pop_numeric_snoc i (rest ++ [a]) b db Hs' Hb).
  rewrite (pop_numeric_snoc (WI.with_stack (rest ++ [a]) i) rest a da
             (stack_with_stack _ _) Ha).
  by destruct (Double.eqb db Double.zero).
Qed.

(** C3 (amended). For every pair of numeric operands on top of the stack,
    Integer or Double tagged in any combination, the operators +, - and *
    pop both and push one Double-tagged result, and / does the same whenever
    the divisor is not zero. Executing the line "5 3 +" on a freshly
    constructed interpreter leaves exactly one value, the double 8. *)
Theorem core_arithmetic_pushes_double i rest a b da db :
  WI.stack i = rest ++ [a; b] ->
  WofValue.as_numeric a = Normal da ->
  WofValue.as_numeric b = Normal db ->
  let pushed r :=
    (Normal tt, WI.with_stack (rest ++ [WofValue.make_double r]) i) in
  WI.core_op op_add i = pushed (Double.add da db)
  /\ WI.core_op op_sub i = pushed (Double.sub da db)
  /\ WI.core_op op_mul i = pushed (Double.mul da db)
  /\ (Double.eqb db Double.zero = false ->
      WI.core_op op_div i = pushed (Double.div da db))
  /\ (forall r, WofValue.type (WofValue.make_double r) = WofType.Double)
  /\ (forall out,
        WI.exec_line "5 3 +" (WI.construct (Plugin := Plugin) out) =
          (Normal tt,
           WI.with_stack [WofValue.make_double (Double.of_int64 8)]
             (WI.construct out))).
Proof.
  intros Hs Ha Hb pushed. split_and!.
  - by apply (arith_run _ i rest a b da db).
  - by apply (arith_run _ i rest a b da db).
  - by apply (arith_run _ i rest a b da db).
  - intros Hz. rewrite (div_run i rest a b da db) by done. by rewrite Hz.
  - done.
  - intros out. reflexivity.
Qed.

(** C4 (amended). When the two topmost values are numeric and the topmost
    one equals zero, the operator / throws the error "division by zero";
    both operands have been popped by then and no quotient is pushed. *)
Theorem division_by_zero_raises i rest a b da db :
  WI.stack i = rest ++ [a; b] ->
  WofValue.as_numeric a = Normal da ->
  WofValue.as_numeric b = Normal db ->
  Double.eqb db Double.zero = true ->
  WI.core_op op_div i =
    (Throw (runtime_error "division by zero"), WI.with_stack rest i).
Proof.
  intros Hs Ha Hb Hz. rewrite (div_run i rest a b da db) by done.
  by rewrite Hz.
Qed.

End Arithmetic.

(** ** Dispatch and the registry *)
Section Dispatch.
Context `{Platform} {Plugin : Type} `{!WI.PluginHost Plugin}.
Implicit Types (i j : WI.t Plugin) (h : WI.WofOpHandler Plugin).

(** A token that is neither a comment, nor quoted, nor a number is looked up
    in the table. *)
Lemma dispatch_token_lookup token i :
  is_comment_token token = false ->
  is_quoted_token token = false ->
  is_integer_token token = false ->
  is_float_token token = false ->
  WI.dispatch_token token i =
    match WI.ops i !! token with
    | Some handler => WI.call handler i
    | None => WI.push (WofValue.make_symbol token) i
    end.
Proof.
  intros Hc Hq Hi Hf. unfold WI.dispatch_token.
  rewrite Hc, Hq, Hi, Hf. unfold WI.bind, WI.get_ops.
  by destruct (WI.ops i !! token).
Qed.

(** A comment token does nothing at all. *)
Lemma dispatch_token_comment token i :
  is_comment_token token = true ->
  WI.dispatch_token token i = (Normal tt, i).
Proof. intros Hc. unfold WI.dispatch_token. by rewrite Hc. Qed.

(** C6. Registering a handler never fails and returns nothing. A second
    registration under the same name replaces the first without a trace: the
    interpreter is the one that would have seen the second registration
    only, the table maps the name to the newest handler, and from then on,
    in every state that has this table, dispatching the name (a token that
    reaches the table) runs the newest handler. *)
Theorem register_op_last_write_wins name h1 h2 i :
  let i1 := snd (WI.register_op name h1 i) in
  let i2 := snd (WI.register_op name h2 i1) in
  fst (WI.register_op name h1 i) = Normal tt
  /\ fst (WI.register_op name h2 i1) = Normal tt
  /\ i2 = snd (WI.register_op name h2 i)
  /\ WI.ops i2 !! name = Some h2
  /\ (forall j,
        WI.ops j = WI.ops i2 ->
        is_comment_token name = false ->
        is_quoted_token name = false ->
        is_integer_token name = false ->
        is_float_token name = false ->
        WI.dispatch_token name j = WI.call h2 j).
Proof.
  intros i1 i2. split_and!; try done.
  - unfold i2, i1, WI.register_op. cbn. by rewrite insert_insert_eq.
  - unfold i2, WI.register_op. cbn. by rewrite lookup_insert_eq.
  - intros j Hj Hc Hq Hi Hf. rewrite dispatch_token_lookup by done.
    rewrite Hj. unfold i2, WI.register_op. cbn. by rewrite lookup_insert_eq.
Qed.

(** C7. A token that is not a comment, not a quoted string, not an integer
    or float literal and not a registered name is pushed as one Symbol value
    holding the token's text; the values below it, the table and the output
    are untouched, and nothing is thrown. *)
Theorem unknown_token_becomes_symbol token i :
  is_comment_token token = false ->
  is_quoted_token token = false ->
  is_integer_token token = false ->
  is_float_token token = false ->
  WI.ops i !! token = None ->
  WI.dispatch_token token i =
    (Normal tt, WI.with_stack (WI.stack i ++ [WofValue.make_symbol token]) i)
  /\ WofValue.type (WofValue.make_symbol token) = WofType.Symbol
  /\ WofValue.to_string (WofValue.make_symbol token) = Normal token.
Proof.
  intros Hc Hq Hi Hf Hnone. split_and!; try done.
  rewrite dispatch_token_lookup by done. by rewrite Hnone.
Qed.

(** C1, at the line "1 # 2 3". The comment token itself is skipped, but the
    tokens after it are dispatched like any others: the line leaves the
    integers 1, 2 and 3 on the stack, where the claim allows 1 only. *)
Theorem tokens_after_comment_marker_are_dispatched out :
  simple_tokenize (trim "1 # 2 3") = ["1"; "#"; "2"; "3"]%string
  /\ WI.exec_line "1 # 2 3" (WI.construct (Plugin := Plugin) out) =
       (Normal tt,
        WI.with_stack
          [WofValue.make_int 1; WofValue.make_int 2; WofValue.make_int 3]
          (WI.construct out)).
Proof. split; reflexivity. Qed.

End Dispatch.

(** ** Stack operators and typed pops *)

(** [a == a] on doubles holds for everything but a NaN. *)
Lemma Double_eqb_refl (a : Double.t) :
  Double.eqb a a = negb (Double.is_nan a).
Proof.
  destruct a as [[] | [] | | [] m e]; try reflexivity;
    unfold Double.eqb, SFeqb, SFcompare;
    by rewrite Z.compare_refl, Pos.compare_cont_refl.
Qed.

(** [operator==] is reflexive exactly on the values that carry no NaN. *)
Lemma operator_eq_refl (v : WofValue.t) :
  WofValue.operator_eq v v = negb (carries_nan v).
Proof.
  destruct v as [ty val u]. unfold WofValue.operator_eq, carries_nan. cbn.
  assert (Hty : WofType.eqb ty ty = true) by (by destruct ty).
  rewrite Hty. cbn.
  assert (Hval : Storage_eqb val val =
                 negb match val with double_alt d => Double.is_nan d | _ => false end).
  { destruct val as [ | n | d | x]; cbn; try done.
    - apply Z.eqb_refl.
    - apply Double_eqb_refl.
    - apply String.eqb_refl. }
  destruct u as [[nm sc] | ]; cbn.
  - rewrite String.eqb_refl. cbn. unfold Double.neqb.
    fold (Double.eqb sc sc). rewrite Double_eqb_refl, Hval.
    destruct (Double.is_nan sc); cbn.
    + by rewrite orb_true_r.
    + by rewrite orb_false_r.
  - by rewrite Hval, orb_false_r.
Qed.


Section StackOperators.
Context `{Platform} {Plugin : Type} `{!WI.PluginHost Plugin}.
Implicit Types (i : WI.t Plugin) (v : WofValue.t) (rest : list WofValue.t).

Lemma stack_has_run n i :
  WI.stack_has n i = (Normal (n <=? length (WI.stack i))%nat, i).
Proof. reflexivity. Qed.

Lemma dup_run i rest v :
  WI.stack i = rest ++ [v] ->
  WI.core_op op_dup i = (Normal tt, WI.with_stack (rest ++ [v; v]) i).
Proof.
  intros Hs. destruct i as [s o c]. cbn in Hs. subst s.
  unfold WI.core_op, WI.bind, WI.stack_has, WI.get_stack, WI.ret, WI.when. cbn.
  rewrite length_app, Nat.add_1_r. cbn.
  by rewrite last_snoc, <- app_assoc.
Qed.

Lemma drop_run i rest v :
  WI.stack i = rest ++ [v] ->
  WI.core_op op_drop i = (Normal tt, WI.with_stack rest i).
Proof.
  intros Hs. destruct i as [s o c]. cbn in Hs. subst s.
  unfold WI.core_op, WI.bind, WI.stack_has, WI.get_stack, WI.ret, WI.when. cbn.
  rewrite length_app, Nat.add_1_r. cbn.
  unfold WI.pop, WI.bind, WI.get_stack, WI.when. cbn.
  by rewrite vector_empty_snoc, removelast_last.
Qed.

Lemma dup_then_drop_run i rest v :
  WI.stack i = rest ++ [v] ->
  WI.bind (WI.core_op op_dup) (fun _ => WI.core_op op_drop) i = (Normal tt, i).
Proof.
  intros Hs. unfold WI.bind at 1. rewrite (dup_run i rest v Hs).
  rewrite (drop_run _ (rest ++ [v]) v) by (cbn; by rewrite <- app_assoc).
  rewrite with_stack_twice, <- Hs. by rewrite with_stack_same.
Qed.

(** C8 (amended). On a non-empty stack, [dup] followed by [drop] gives back
    the very interpreter it started from: the depth is unchanged and the top
    value is the value that was on top before, tag, payload and unit
    included. [operator==] reports the two as equal whenever the value
    carries no NaN. *)
Theorem dup_then_drop_restores_top i rest v :
  WI.stack i = rest ++ [v] ->
  let after := WI.bind (WI.core_op op_dup) (fun _ => WI.core_op op_drop) i in
  after = (Normal tt, i)
  /\ length (WI.stack (snd after)) = length (WI.stack i)
  /\ WI.vector_back (WI.stack (snd after)) = v
  /\ (carries_nan v = false ->
      WofValue.operator_eq (WI.vector_back (WI.stack (snd after))) v = true)
  /\ (WI.ops i !! "dup"%string = Some (WI.core_lambda op_dup) ->
      WI.ops i !! "drop"%string = Some (WI.core_lambda op_drop) ->
      WI.exec_line "dup drop" i = after).
Proof.
  intros Hs after. unfold after. rewrite (dup_then_drop_run i rest v Hs). cbn.
  split_and!; try done.
  - by rewrite Hs, vector_back_snoc.
  - intros Hnan. by rewrite Hs, vector_back_snoc, operator_eq_refl, Hnan.
  - intros Hdup Hdrop.
    change (WI.exec_line "dup drop" i)
      with (WI.bind (WI.dispatch_token "dup")
              (fun _ => WI.bind (WI.dispatch_token "drop") (fun _ => WI.ret tt)) i).
    unfold WI.bind at 1.
    rewrite (dispatch_token_lookup "dup") by done. rewrite Hdup. cbn [WI.call].
    rewrite (dup_run i rest v Hs). unfold WI.bind at 1.
    rewrite (dispatch_token_lookup "drop") by done. cbn [WI.with_stack WI.ops].
    rewrite Hdrop. cbn [WI.call].
    rewrite (drop_run _ (rest ++ [v]) v) by (cbn; by rewrite <- app_assoc).
    cbn. rewrite <- Hs. by destruct i.
Qed.

(** C9. On a non-empty stack whose top value has the payload its tag
    announces, [pop_bool] never throws, whatever the tag: it removes the top
    value and returns its truth value. *)
Theorem pop_bool_never_raises i rest v :
  WI.stack i = rest ++ [v] ->
  WofValue.payload_matches_tag v = true ->
  WI.pop_bool i = (Normal (truth_value v), WI.with_stack rest i).
Proof.
  intros Hs Hwf. unfold WI.pop_bool, WI.bind. rewrite (pop_snoc i rest v Hs).
  destruct v as [ty [ | n | d | x] u]; destruct ty; try discriminate;
    try reflexivity; cbn; unfold WI.ret, truth_value; cbn; do 2 f_equal.
  all: case_decide as Hin;
    [ repeat (apply elem_of_cons in Hin as [-> | Hin]); try done;
      by apply elem_of_nil in Hin
    | destruct x as [ | c x]; [ exfalso; apply Hin; set_solver | ];
      cbn [string_empty negb andb];
      destruct (String.eqb_spec (String c x) "0");
        [ exfalso; apply Hin; set_solver | ];
      destruct (String.eqb_spec (String c x) "false");
        [ exfalso; apply Hin; set_solver | ];
      destruct (String.eqb_spec (String c x) "False");
        [ exfalso; apply Hin; set_solver | ];
      reflexivity ].
Qed.

End StackOperators.

(** ** Rounding a double to an integer *)

(** The rounded magnitude is the integer at distance at most one half of the
    exact magnitude [m * 2^e]. *)
Lemma round_magnitude_bounds (m : positive) (k : positive) :
  let d := 2 ^ Zpos k in
  let r := Double.round_magnitude m (Zneg k) in
  2 * r * d <= 2 * Zpos m + d < 2 * r * d + 2 * d.
Proof.
  intros d r. unfold r, Double.round_magnitude.
  change (- Zneg k) with (Zpos k). fold d.
  assert (Hd : 0 < d) by (unfold d; apply Z.pow_pos_nonneg; lia).
  replace (2 ^ (Zpos k + 1)) with (2 * d)
    by (unfold d; rewrite Z.pow_add_r by lia; lia).
  pose proof (Z.div_mod (2 * Zpos m + d) (2 * d) ltac:(lia)) as Hdm.
  pose proof (Z.mod_pos_bound (2 * Zpos m + d) (2 * d) ltac:(lia)) as Hmod.
  nia.
Qed.

Lemma rounded_is_nearest (a : Double.t) (r : Z) :
  Double.rounded a = Some r -> nearest_integer a r.
Proof.
  destruct a as [s | s | | s m e]; cbn; try discriminate.
  - intros [= <-] n. lia.
  - intros [= <-]. unfold nearest_integer, fraction.
    destruct e as [ | p | k].
    + cbn [Z.leb Z.compare Double.round_magnitude]. intros n.
      destruct s; lia.
    + cbn [Z.leb Z.compare Double.round_magnitude]. intros n.
      rewrite Z.shiftl_mul_pow2 by lia. destruct s; lia.
    + cbn [Z.leb Z.compare]. change (- Zneg k) with (Zpos k). intros n.
      pose proof (round_magnitude_bounds m k) as Hb. cbn zeta in Hb.
      set (R := Double.round_magnitude m (Zneg k)) in *.
      set (D := 2 ^ Zpos k) in *.
      assert (HD : 0 < D) by (unfold D; apply Z.pow_pos_nonneg; lia).
      destruct s.
      * change (Zneg m) with (- Zpos m).
        destruct (Z.eq_dec n (- R)) as [-> | Hne]; [lia | ].
        assert (Hn : n <= - R - 1 \/ - R + 1 <= n) by lia.
        destruct Hn; nia.
      * destruct (Z.eq_dec n R) as [-> | Hne]; [lia | ].
        assert (Hn : n <= R - 1 \/ R + 1 <= n) by lia.
        destruct Hn; nia.
Qed.

Section TypedPops.
Context `{Platform} {Plugin : Type} `{!WI.PluginHost Plugin}.
Implicit Types (i : WI.t Plugin) (v : WofValue.t) (rest : list WofValue.t).

(** C10. On a non-empty stack whose top value has the payload its tag
    announces, [pop_int] accepts a Double: it removes it and returns
    [llround] of the payload, which is an integer nearest to the payload
    whenever the payload is finite and that integer fits 64 bits. For a
    NaN, an infinity or a payload that rounds outside the 64-bit range,
    what is returned is what the platform's [llround] gives there. An
    Integer is returned as it is, and the only tags that make [pop_int]
    throw are String, Symbol and Unknown. *)
Theorem pop_int_accepts_double i rest v :
  WI.stack i = rest ++ [v] ->
  WofValue.payload_matches_tag v = true ->
  (forall d,
     WofValue.type v = WofType.Double ->
     WofValue.value v = double_alt d ->
     WI.pop_int i =
       (Normal (Double.llround llround_unspecified d), WI.with_stack rest i)
     /\ (forall r,
           Double.rounded d = Some r ->
           Std.LLONG_MIN <= r <= Std.LLONG_MAX ->
           Double.llround llround_unspecified d = r /\ nearest_integer d r)
     /\ (match Double.rounded d with
         | Some r => r < Std.LLONG_MIN \/ Std.LLONG_MAX < r
         | None => True
         end ->
         Double.llround llround_unspecified d = llround_unspecified d))
  /\ (forall n,
        WofValue.type v = WofType.Integer ->
        WofValue.value v = int64_alt n ->
        WI.pop_int i = (Normal n, WI.with_stack rest i))
  /\ (is_normal (fst (WI.pop_int i)) = false <->
      WofValue.type v = WofType.String
      \/ WofValue.type v = WofType.Symbol
      \/ WofValue.type v = WofType.Unknown)
  /\ (is_normal (fst (WI.pop_int i)) = false ->
      WI.pop_int i =
        (Throw (runtime_error "pop_int: value is not numeric"),
         WI.with_stack rest i)).
Proof.
  intros Hs Hwf. unfold WI.pop_int, WI.bind. rewrite (pop_snoc i rest v Hs).
  destruct v as [ty val u]. cbn [WofValue.type WofValue.value].
  split_and!.
  - intros d -> ->. split_and!; [reflexivity | | ].
    + intros r Hr [Hlo Hhi]. split; [ | by apply rounded_is_nearest].
      unfold Double.llround. rewrite Hr.
      apply Z.leb_le in Hlo, Hhi. by rewrite Hlo, Hhi.
    + unfold Double.llround. destruct (Double.rounded d) as [r | ]; [ | done].
      intros Hout.
      destruct (Z.leb_spec Std.LLONG_MIN r), (Z.leb_spec r Std.LLONG_MAX);
        cbn [andb]; try reflexivity; lia.
  - by intros n -> ->.
  - destruct ty, val; try discriminate Hwf; cbn; split;
      try tauto; try discriminate; intros [ | [ | ]]; discriminate.
  - destruct ty, val; try discriminate Hwf; cbn; try discriminate; done.
Qed.

End TypedPops.

(** ** The tokenizer *)

Lemma string_app_cons (x : ascii) (a b : string) :
  String x a +:+ b = String x (a +:+ b).
Proof. reflexivity. Qed.

Lemma string_app_nil_l (a : string) : EmptyString +:+ a = a.
Proof. reflexivity. Qed.

Lemma string_app_assoc (a b c : string) : (a +:+ b) +:+ c = a +:+ (b +:+ c).
Proof.
  induction a as [ | x a IH]; [done | ].
  by rewrite !string_app_cons, IH.
Qed.

Lemma string_app_nil_r (a : string) : a +:+ EmptyString = a.
Proof.
  induction a as [ | x a IH]; [done | ].
  by rewrite string_app_cons, IH.
Qed.

Lemma string_empty_app_cons (a : string) (c : ascii) (b : string) :
  string_empty (a +:+ String c b) = false.
Proof. by destruct a. Qed.

Lemma tokenize_loop_app (a b : string) (st : tokenizer_state) :
  tokenize_loop (a +:+ b) st = tokenize_loop b (tokenize_loop a st).
Proof. revert st. induction a as [ | c a IH]; intros st; cbn; [done | apply IH]. Qed.

(** Inside quotes, text without a quote is appended to [current] as it is,
    white space included. *)
Lemma tokenize_loop_in_quotes (rest : string) (st : tokenizer_state) :
  no_quote rest = true ->
  in_quotes st = true ->
  tokenize_loop rest st =
    mk_tokenizer (tokens st) (current st +:+ rest) true.
Proof.
  revert st. induction rest as [ | c rest IH]; intros st Hnq Hin.
  - cbn [tokenize_loop]. rewrite string_app_nil_r.
    destruct st; cbn in *. by subst.
  - cbn in Hnq. apply andb_prop in Hnq as [Hc Hnq].
    cbn [tokenize_loop]. rewrite IH; [ | done | ].
    + unfold tokenize_step. apply negb_true_iff in Hc. rewrite Hc, Hin.
      rewrite andb_false_r. cbn [tokens current in_quotes].
      unfold push_back_char.
      by rewrite string_app_assoc, string_app_cons, string_app_nil_l.
    + unfold tokenize_step. apply negb_true_iff in Hc. rewrite Hc, Hin.
      by rewrite andb_false_r.
Qed.

(** A line that ends in quoted mode splits at its last quote, which opened
    the quotation. *)
Lemma unterminated_quote_split (line : string) (st : tokenizer_state) :
  in_quotes (tokenize_loop line st) = true ->
  (exists pre rest,
      line = pre +:+ String Std.dquote rest
      /\ no_quote rest = true
      /\ in_quotes (tokenize_loop pre st) = false)
  \/ (in_quotes st = true /\ no_quote line = true).
Proof.
  revert st. induction line as [ | c line IH]; intros st Hend.
  - right. by split.
  - cbn [tokenize_loop] in Hend.
    destruct (IH _ Hend) as [(pre & rest & -> & Hnq & Hpre) | [Hin Hnq]].
    + left. by exists (String c pre), rest.
    + destruct (Ascii.eqb_spec c Std.dquote) as [-> | Hc].
      * left. exists EmptyString, line. split_and!; [done | done | ].
        cbn. unfold tokenize_step in Hin. rewrite Ascii.eqb_refl in Hin.
        by destruct (in_quotes st).
      * right. assert (Hcb : Ascii.eqb c Std.dquote = false)
          by (by apply Ascii.eqb_neq).
        split; [ | cbn; by rewrite Hcb].
        unfold tokenize_step in Hin. rewrite Hcb in Hin.
        destruct (in_quotes st) eqn:Hq; [done | ].
        rewrite andb_true_r in Hin.
        destruct (Std.isspace c); [ | done].
        destruct (negb (string_empty (current st))); [done | congruence].
Qed.

(** C2 (amended). When the tokenizer reaches the end of the line in quoted
    mode, the line splits at the quote that opened the quotation, and the
    partial token is emitted as the last token: whatever [current] held when
    the quote was met, the quote, and the rest of the line with its white
    space. The tokens before it are those completed before the quote. *)
Theorem unterminated_quote_is_emitted (line : string) :
  in_quotes (tokenize_loop line tokenizer_init) = true ->
  exists pre rest,
    line = pre +:+ String Std.dquote rest
    /\ no_quote rest = true
    /\ in_quotes (tokenize_loop pre tokenizer_init) = false
    /\ simple_tokenize line =
         tokens (tokenize_loop pre tokenizer_init)
         ++ [current (tokenize_loop pre tokenizer_init)
             +:+ String Std.dquote rest].
Proof.
  intros Hend.
  destruct (unterminated_quote_split line tokenizer_init Hend)
    as [(pre & rest & -> & Hnq & Hpre) | [Hin _]]; [ | discriminate].
  exists pre, rest. split_and!; try done.
  unfold simple_tokenize. rewrite tokenize_loop_app.
  set (st := tokenize_loop pre tokenizer_init) in *.
  cbn [tokenize_loop]. rewrite tokenize_loop_in_quotes; [ | done | ].
  - unfold tokenize_step. rewrite Ascii.eqb_refl, Hpre.
    cbn [tokens current in_quotes negb]. unfold tokenize_flush, push_back_char.
    cbn [tokens current].
    rewrite string_app_assoc, !string_app_cons, string_app_nil_l.
    by rewrite string_empty_app_cons.
  - unfold tokenize_step. by rewrite Ascii.eqb_refl, Hpre.
Qed.

(** ** Integer literals: [std::stoll] against [operator<<] *)

Lemma isdigit_digit_value (c : ascii) :
  Std.isdigit c = true ->
  0 <= Std.digit_value c <= 9 /\ Std.digit_char (Std.digit_value c) = c.
Proof.
  unfold Std.isdigit, Std.digit_value, Std.digit_char. intros Hd.
  apply andb_prop in Hd as [Hlo Hhi].
  apply Nat.leb_le in Hlo, Hhi. split; [lia | ].
  replace (48 + Z.to_nat (Z.of_nat (nat_of_ascii c) - 48))%nat
    with (nat_of_ascii c) by lia.
  apply ascii_nat_embedding.
Qed.

Lemma isdigit_zero (c : ascii) :
  Std.isdigit c = true -> Std.digit_value c = 0 -> c = "0"%char.
Proof.
  intros Hd Hz. destruct (isdigit_digit_value c Hd) as [_ <-].
  by rewrite Hz.
Qed.

Lemma put_digits_step (fuel : nat) (n : Z) (acc : string) :
  Std.put_digits (S fuel) n acc =
    if n / 10 =? 0 then String (Std.digit_char (n mod 10)) acc
    else Std.put_digits fuel (n / 10) (String (Std.digit_char (n mod 10)) acc).
Proof. reflexivity. Qed.

(** The accumulator goes in front. *)
Lemma put_digits_acc (fuel : nat) (n : Z) (acc : string) :
  Std.put_digits fuel n acc = Std.put_digits fuel n EmptyString +:+ acc.
Proof.
  revert n acc. induction fuel as [ | fuel IH]; intros n acc; [done | ].
  cbn [Std.put_digits]. destruct (n / 10 =? 0); [done | ].
  rewrite (IH _ (String _ acc)), (IH _ (String _ EmptyString)).
  by rewrite string_app_assoc.
Qed.

(** Fuel beyond the number of binary digits changes nothing. *)
Lemma put_digits_fuel (f f' : nat) (n : Z) (acc : string) :
  0 <= n < 2 ^ Z.of_nat (S f) ->
  (f <= f')%nat ->
  Std.put_digits (S f') n acc = Std.put_digits (S f) n acc.
Proof.
  revert f' n acc. induction f as [ | f IH]; intros f' n acc Hn Hf.
  - change (2 ^ Z.of_nat 1) with 2 in Hn.
    cbn [Std.put_digits]. by rewrite (Z.div_small n 10) by lia.
  - destruct f' as [ | f']; [lia | ].
    cbn [Std.put_digits]. destruct (n / 10 =? 0) eqn:Hq; [done | ].
    apply IH; [ | lia].
    rewrite (Nat2Z.inj_succ (S f)), Z.pow_succ_r in Hn by lia.
    split; [apply Z.div_pos; lia | ].
    apply Z.div_lt_upper_bound; lia.
Qed.

Lemma put_unsigned_enough (f : nat) (n : Z) :
  0 <= n < 2 ^ Z.of_nat (S f) ->
  Std.put_unsigned n = Std.put_digits (S f) n EmptyString.
Proof.
  intros Hn. unfold Std.put_unsigned. symmetry.
  pose proof (Z.log2_nonneg n) as Hnn.
  apply put_digits_fuel.
  - rewrite Nat2Z.inj_succ, Z2Nat.id by done.
    destruct (Z.eq_dec n 0) as [-> | Hnz]; [done | ].
    pose proof (Z.log2_spec n ltac:(lia)). lia.
  - destruct (Z.eq_dec n 0) as [-> | Hnz]; [cbn; lia | ].
    assert (Z.log2 n < Z.of_nat (S f)) by (apply Z.log2_lt_pow2; lia).
    lia.
Qed.

Lemma put_unsigned_digit (d : Z) :
  0 <= d <= 9 ->
  Std.put_unsigned d = String (Std.digit_char d) EmptyString.
Proof.
  intros Hd. rewrite (put_unsigned_enough 3) by (cbn; lia).
  cbn [Std.put_digits]. rewrite Z.mod_small, Z.div_small by lia. reflexivity.
Qed.

(** Appending a digit to a positive number appends its character. *)
Lemma put_unsigned_snoc (q d : Z) :
  0 < q -> 0 <= d <= 9 ->
  Std.put_unsigned (q * 10 + d) =
    Std.put_unsigned q +:+ String (Std.digit_char d) EmptyString.
Proof.
  intros Hq Hd.
  set (f := Z.to_nat (Z.log2 q)).
  assert (Hqf : 0 <= q < 2 ^ Z.of_nat (S f)).
  { pose proof (Z.log2_spec q Hq) as Hs. pose proof (Z.log2_nonneg q).
    unfold f. rewrite Nat2Z.inj_succ, Z2Nat.id by done. lia. }
  rewrite (put_unsigned_enough (S (f + 3)) (q * 10 + d)).
  - rewrite put_digits_step.
    replace ((q * 10 + d) / 10) with q
      by (apply Z.div_unique with d; lia).
    replace ((q * 10 + d) mod 10) with d
      by (apply Z.mod_unique with q; lia).
    destruct (Z.eqb_spec q 0) as [ | _]; [lia | ].
    rewrite put_digits_acc.
    rewrite (put_digits_fuel f) by (done || lia).
    by rewrite <- (put_unsigned_enough f q).
  - replace (Z.of_nat (S (S (f + 3)))) with (Z.of_nat (S f) + 4) by lia.
    rewrite Z.pow_add_r by lia. change (2 ^ 4) with 16. lia.
Qed.

(** Reading a run of digits after a positive number, then printing, gives the
    printed number followed by the run. *)
Lemma put_unsigned_read_digits (s : string) (acc : Z) (seen : bool) :
  all_digits s = true ->
  0 < acc ->
  0 < fst (Std.read_digits s acc seen)
  /\ Std.put_unsigned (fst (Std.read_digits s acc seen)) =
       Std.put_unsigned acc +:+ s.
Proof.
  revert acc seen. induction s as [ | c s IH]; intros acc seen Hall Hacc.
  - cbn. by rewrite string_app_nil_r.
  - cbn in Hall. destruct (Std.isdigit c) eqn:Hc; [ | discriminate].
    cbn in Hall. cbn [Std.read_digits]. rewrite Hc.
    destruct (isdigit_digit_value c Hc) as [Hrange Hchar].
    destruct (IH (acc * 10 + Std.digit_value c) true Hall ltac:(lia))
      as [Hpos Heq].
    split; [done | ].
    rewrite Heq, put_unsigned_snoc, Hchar by (done || lia).
    by rewrite string_app_assoc.
Qed.

Lemma read_digits_seen (s : string) (acc : Z) (seen : bool) :
  all_digits s = true ->
  snd (Std.read_digits s acc seen) = seen || negb (string_empty s).
Proof.
  revert acc seen. induction s as [ | c s IH]; intros acc seen Hall.
  - cbn. by rewrite orb_false_r.
  - cbn in Hall. destruct (Std.isdigit c) eqn:Hc; [ | discriminate].
    cbn in Hall. cbn [Std.read_digits]. rewrite Hc, IH by done.
    cbn. by rewrite orb_true_r.
Qed.

(** A run of digits without a leading zero is the rendering of its value. *)
Lemma put_unsigned_canonical_digits (s : string) :
  all_digits s = true ->
  string_empty s = false ->
  no_leading_zero s = true ->
  let v := fst (Std.read_digits s 0 false) in
  0 <= v
  /\ Std.put_unsigned v = s
  /\ (v = 0 -> s = "0"%string).
Proof.
  intros Hall Hne Hlz v. unfold v. clear v.
  destruct s as [ | c s]; [discriminate | ].
  cbn in Hall. destruct (Std.isdigit c) eqn:Hc; [ | discriminate].
  cbn in Hall. cbn [Std.read_digits]. rewrite Hc.
  destruct (isdigit_digit_value c Hc) as [Hrange Hchar].
  change (0 * 10 + Std.digit_value c) with (Std.digit_value c).
  destruct (Z.eq_dec (Std.digit_value c) 0) as [Hz | Hnz].
  - pose proof (isdigit_zero c Hc Hz) as ->.
    destruct s as [ | c' s]; [by cbn | ]. discriminate.
  - destruct (put_unsigned_read_digits s (Std.digit_value c) true Hall
                ltac:(lia)) as [Hpos Heq].
    split_and!; [lia | | lia].
    by rewrite Heq, put_unsigned_digit, Hchar.
Qed.

Lemma isdigit_not_space (c : ascii) :
  Std.isdigit c = true -> Std.isspace c = false.
Proof.
  unfold Std.isdigit, Std.isspace. intros Hd.
  apply andb_prop in Hd as [Hlo Hhi]. apply Nat.leb_le in Hlo, Hhi.
  apply orb_false_intro.
  - apply Nat.eqb_neq. lia.
  - apply andb_false_intro2. apply Nat.leb_gt. lia.
Qed.

(** The first character of an integer literal is a sign or a digit, and the
    rest of it is digits. *)
Lemma is_integer_token_inv (token : string) :
  is_integer_token token = true ->
  exists c rest,
    token = String c rest
    /\ ((c = "+"%char \/ c = "-"%char)
          /\ string_empty rest = false /\ all_digits rest = true
        \/ c <> "+"%char /\ c <> "-"%char
           /\ Std.isdigit c = true /\ all_digits rest = true).
Proof.
  destruct token as [ | c rest]; [discriminate | ]. intros Hint.
  exists c, rest. split; [done | ]. unfold is_integer_token in Hint.
  destruct (Ascii.eqb_spec c "+") as [-> | Hplus].
  - left. cbn in Hint. destruct (string_empty rest); [discriminate | ].
    split; [by left | done].
  - destruct (Ascii.eqb_spec c "-") as [-> | Hminus].
    + left. cbn in Hint. destruct (string_empty rest); [discriminate | ].
      split; [by right | done].
    + right. cbn in Hint.
      destruct (Std.isdigit c); [done | discriminate].
Qed.

(** An integer literal passes the comment test and the quoted-string test
    of [dispatch_token]. *)
Lemma integer_token_not_comment_not_quoted (token : string) :
  is_integer_token token = true ->
  is_comment_token token = false /\ is_quoted_token token = false.
Proof.
  intros Hint.
  destruct (is_integer_token_inv token Hint)
    as (c & rest & -> & [[[-> | ->] _] | (_ & _ & Hd & _)]).
  - split; [reflexivity | ]. unfold is_quoted_token. cbn [front char_is].
    by rewrite andb_false_r.
  - split; [reflexivity | ]. unfold is_quoted_token. cbn [front char_is].
    by rewrite andb_false_r.
  - unfold is_comment_token, is_quoted_token. cbn [front char_is string_empty].
    destruct (Ascii.eqb_spec c "#") as [-> | _]; [discriminate | ].
    destruct (Ascii.eqb_spec c Std.dquote) as [-> | _]; [discriminate | ].
    split; [done | ]. by rewrite andb_false_r.
Qed.

Lemma stoll_integer_token (token : string) :
  is_integer_token token = true ->
  Std.stoll token =
    if (Std.LLONG_MIN <=? literal_value token)
       && (literal_value token <=? Std.LLONG_MAX)
    then Normal (literal_value token)
    else Throw (out_of_range "stoll").
Proof.
  intros Hint.
  destruct (is_integer_token_inv token Hint)
    as (c & rest & -> & [[Hsign [Hne Hall]] | (Hplus & Hminus & Hd & Hall)]).
  - assert (Hseen : snd (Std.read_digits rest 0 false) = true).
    { rewrite read_digits_seen by done. by rewrite Hne. }
    unfold Std.stoll, literal_value.
    destruct Hsign as [-> | ->]; cbn [Std.skip_space];
      change (Std.isspace "+") with false; change (Std.isspace "-") with false;
      cbn [Ascii.eqb Bool.eqb];
      destruct (Std.read_digits rest 0 false) as [mag seen];
      cbn in Hseen; subst seen; reflexivity.
  - assert (Hall' : all_digits (String c rest) = true) by (cbn; by rewrite Hd).
    assert (Hseen : snd (Std.read_digits (String c rest) 0 false) = true)
      by (by rewrite read_digits_seen).
    unfold Std.stoll, literal_value. cbn [Std.skip_space].
    rewrite (isdigit_not_space c Hd).
    apply Ascii.eqb_neq in Hplus, Hminus. rewrite Hplus, Hminus.
    destruct (Std.read_digits (String c rest) 0 false) as [mag seen].
    cbn in Hseen. subst seen. reflexivity.
Qed.

(** A canonical literal is the rendering of its value. *)
Lemma put_int64_canonical (token : string) :
  canonical_integer_token token = true ->
  Std.put_int64 (literal_value token) = token.
Proof.
  unfold canonical_integer_token. intros Hcan.
  apply andb_prop in Hcan as [Hint Hcan].
  destruct (is_integer_token_inv token Hint)
    as (c & rest & -> & [[Hsign [Hne Hall]] | (Hplus & Hminus & Hd & Hall)]).
  - destruct Hsign as [-> | ->]; [discriminate | ].
    cbn [Ascii.eqb Bool.eqb] in Hcan. cbn match in Hcan.
    apply andb_prop in Hcan as [Hlz Hnz].
    destruct (put_unsigned_canonical_digits rest Hall Hne Hlz)
      as (Hpos & Hput & Hzero).
    unfold literal_value. cbn [Ascii.eqb Bool.eqb]. cbn match.
    set (mag := fst (Std.read_digits rest 0 false)) in *.
    assert (Hmag : 0 < mag).
    { destruct (Z.eq_dec mag 0) as [H0 | H0]; [ | lia].
      rewrite (Hzero H0) in Hnz. discriminate. }
    unfold Std.put_int64.
    destruct (Z.ltb_spec (- mag) 0) as [_ | ?]; [ | lia].
    by rewrite Z.opp_involutive, Hput.
  - assert (Hall' : all_digits (String c rest) = true) by (cbn; by rewrite Hd).
    apply Ascii.eqb_neq in Hplus, Hminus. rewrite Hplus, Hminus in Hcan.
    destruct (put_unsigned_canonical_digits (String c rest) Hall' eq_refl Hcan)
      as (Hpos & Hput & _).
    unfold literal_value. rewrite Hplus, Hminus.
    set (mag := fst (Std.read_digits (String c rest) 0 false)) in *.
    unfold Std.put_int64.
    by destruct (Z.ltb_spec mag 0) as [? | _]; [lia | ].
Qed.

Section IntegerLiterals.
Context `{Platform} {Plugin : Type} `{!WI.PluginHost Plugin}.
Implicit Types (i : WI.t Plugin).

(** An integer literal outside the 64-bit range pushes nothing: the
    exception of [std::stoll] leaves [dispatch_token]. *)
Lemma integer_token_out_of_range token e i :
  is_integer_token token = true ->
  Std.stoll token = Throw e ->
  e = out_of_range "stoll" /\ WI.dispatch_token token i = (Throw e, i).
Proof.
  intros Hint He.
  destruct (integer_token_not_comment_not_quoted token Hint) as [Hc Hq].
  split.
  - rewrite (stoll_integer_token token Hint) in He.
    destruct ((Std.LLONG_MIN <=? literal_value token)
              && (literal_value token <=? Std.LLONG_MAX)); [discriminate | ].
    by injection He as <-.
  - unfold WI.dispatch_token. rewrite Hc, Hq, Hint.
    unfold WI.bind, WI.lift. by rewrite He.
Qed.

(** C5 (amended). A token matching the integer-literal grammar whose value
    fits 64 bits is pushed as one Integer value holding that value. When the
    token is canonical (no plus sign, no leading zero, no minus sign in front
    of zero), the text of the pushed value is the token itself: same sign,
    same digits, no decimal point. *)
Theorem integer_token_round_trip token v i :
  is_integer_token token = true ->
  Std.stoll token = Normal v ->
  WI.dispatch_token token i =
    (Normal tt, WI.with_stack (WI.stack i ++ [WofValue.make_int v]) i)
  /\ WofValue.type (WofValue.make_int v) = WofType.Integer
  /\ (canonical_integer_token token = true ->
      WofValue.to_string (WofValue.make_int v) = Normal token).
Proof.
  intros Hint Hv.
  destruct (integer_token_not_comment_not_quoted token Hint) as [Hc Hq].
  split_and!.
  - unfold WI.dispatch_token. rewrite Hc, Hq, Hint.
    unfold WI.bind, WI.lift. by rewrite Hv.
  - done.
  - intros Hcan. unfold WofValue.to_string. cbn.
    rewrite (stoll_integer_token token Hint) in Hv.
    destruct ((Std.LLONG_MIN <=? literal_value token)
              && (literal_value token <=? Std.LLONG_MAX)); [ | discriminate].
    injection Hv as <-. by rewrite put_int64_canonical.
Qed.

End IntegerLiterals.

(** * Further properties of the core *)

(** ** The tokenizer, on every line *)

Lemma tokenize_step_nonempty (st : tokenizer_state) (c : ascii) :
  Forall (fun tok => tok <> EmptyString) (tokens st) ->
  Forall (fun tok => tok <> EmptyString) (tokens (tokenize_step st c)).
Proof.
  intros Hst. unfold tokenize_step.
  destruct (Ascii.eqb c Std.dquote).
  - destruct (in_quotes st); cbn [tokens]; [ | done].
    apply Forall_app. split; [done | ]. apply Forall_singleton.
    unfold push_back_char. by destruct (current st).
  - destruct (Std.isspace c && negb (in_quotes st)); [ | done].
    destruct (current st) as [ | x cur] eqn:Hcur; cbn; [done | ].
    apply Forall_app. split; [done | ]. by apply Forall_singleton.
Qed.

Lemma tokenize_loop_nonempty (line : string) (st : tokenizer_state) :
  Forall (fun tok => tok <> EmptyString) (tokens st) ->
  Forall (fun tok => tok <> EmptyString) (tokens (tokenize_loop line st)).
Proof.
  revert st. induction line as [ | c line IH]; intros st Hst; [done | ].
  cbn [tokenize_loop]. apply IH. by apply tokenize_step_nonempty.
Qed.

(** X1. The tokenizer never emits an empty token, whatever the line. *)
Theorem simple_tokenize_no_empty_token (line : string) :
  Forall (fun tok => tok <> EmptyString) (simple_tokenize line).
Proof.
  unfold simple_tokenize, tokenize_flush.
  pose proof (tokenize_loop_nonempty line tokenizer_init ltac:(constructor)) as Hl.
  destruct (current (tokenize_loop line tokenizer_init)) as [ | x cur] eqn:Hc;
    cbn; [done | ].
  apply Forall_app. split; [done | ]. by apply Forall_singleton.
Qed.

Lemma concat_tokens_snoc (toks : list string) (tok : string) :
  concat_tokens (toks ++ [tok]) = concat_tokens toks +:+ tok.
Proof.
  unfold concat_tokens. induction toks as [ | t toks IH]; simpl.
  - by rewrite string_app_nil_r.
  - by rewrite IH, string_app_assoc.
Qed.

Lemma tokenize_loop_keeps_text (line : string) (st : tokenizer_state) :
  concat_tokens (tokens (tokenize_loop line st))
    +:+ current (tokenize_loop line st)
  = (concat_tokens (tokens st) +:+ current st)
    +:+ strip_unquoted_space line (in_quotes st).
Proof.
  revert st. induction line as [ | c line IH]; intros st.
  - cbn. by rewrite string_app_nil_r.
  - cbn [tokenize_loop strip_unquoted_space]. rewrite IH. clear IH.
    unfold tokenize_step.
    destruct (Ascii.eqb c Std.dquote).
    + destruct (in_quotes st); cbn [tokens current in_quotes negb];
        unfold push_back_char;
        rewrite ?concat_tokens_snoc, ?string_app_nil_r;
        by rewrite !string_app_assoc.
    + destruct (Std.isspace c) eqn:Hsp; destruct (in_quotes st) eqn:Hq;
        cbn [andb negb tokens current in_quotes]; unfold push_back_char;
        rewrite ?Hq; try (by rewrite !string_app_assoc).
      destruct (current st) as [ | x cur] eqn:Hcur;
        cbn [string_empty negb tokens current in_quotes]; rewrite ?Hq, ?Hcur.
      * done.
      * by rewrite concat_tokens_snoc, string_app_nil_r.
Qed.

(** X2. The tokens, written one after the other, are the line without the
    white space outside quotations: the tokenizer loses no other character,
    adds none and keeps their order. *)
Theorem simple_tokenize_keeps_text (line : string) :
  concat_tokens (simple_tokenize line) = strip_unquoted_space line false.
Proof.
  unfold simple_tokenize, tokenize_flush.
  pose proof (tokenize_loop_keeps_text line tokenizer_init) as Hk.
  cbn [tokenizer_init tokens current in_quotes concat_tokens fold_right] in Hk.
  rewrite !string_app_nil_l in Hk. rewrite <- Hk.
  destruct (current (tokenize_loop line _)) as [ | x cur];
    cbn [string_empty negb].
  - by rewrite string_app_nil_r.
  - by rewrite concat_tokens_snoc.
Qed.

Lemma no_space_app (a b : string) :
  no_space (a +:+ b) = no_space a && no_space b.
Proof.
  induction a as [ | c a IH]; [done | ].
  rewrite string_app_cons. cbn [no_space]. by rewrite IH, andb_assoc.
Qed.

Lemma tokenize_loop_no_space (line : string) (st : tokenizer_state) :
  no_quote line = true ->
  in_quotes st = false ->
  Forall (fun tok => no_space tok = true) (tokens st) ->
  no_space (current st) = true ->
  Forall (fun tok => no_space tok = true) (tokens (tokenize_loop line st))
  /\ no_space (current (tokenize_loop line st)) = true.
Proof.
  revert st. induction line as [ | c line IH]; intros st Hnq Hq Htoks Hcur;
    [done | ].
  cbn in Hnq. apply andb_prop in Hnq as [Hc Hnq]. apply negb_true_iff in Hc.
  cbn [tokenize_loop]. unfold tokenize_step. rewrite Hc, Hq, andb_true_r.
  destruct (Std.isspace c) eqn:Hsp.
  - destruct (current st) as [ | x cur] eqn:Hcst; cbn [string_empty negb].
    + apply IH; try done. by rewrite Hcst.
    + apply IH; try done. apply Forall_app. split; [done | ].
      by apply Forall_singleton.
  - apply IH; try done. cbn [current]. unfold push_back_char.
    rewrite no_space_app, Hcur. cbn. by rewrite Hsp.
Qed.

(** X3. On a line without a double quote, no token contains a white-space
    character. *)
Theorem simple_tokenize_splits_at_space (line : string) :
  no_quote line = true ->
  Forall (fun tok => no_space tok = true) (simple_tokenize line).
Proof.
  intros Hnq.
  destruct (tokenize_loop_no_space line tokenizer_init Hnq eq_refl
              ltac:(constructor) eq_refl) as [Htoks Hcur].
  unfold simple_tokenize, tokenize_flush.
  destruct (negb (string_empty (current (tokenize_loop line tokenizer_init))));
    [ | done].
  apply Forall_app. split; [done | ]. by apply Forall_singleton.
Qed.

(** ** [trim] and the blank line *)

Lemma skip_space_front (s : string) (c : ascii) :
  front (Std.skip_space s) = Some c -> Std.isspace c = false.
Proof.
  induction s as [ | x s IH]; [discriminate | ].
  cbn [Std.skip_space]. destruct (Std.isspace x) eqn:Hx; [done | ].
  cbn. by intros [= <-].
Qed.

Lemma trim_end_back (s : string) (c : ascii) :
  back (trim_end s) = Some c -> Std.isspace c = false.
Proof.
  induction s as [ | x s IH]; [discriminate | ].
  cbn [trim_end]. destruct (trim_end s) as [ | y r] eqn:Hr.
  - cbn [string_empty andb]. destruct (Std.isspace x) eqn:Hx; [discriminate | ].
    cbn. by intros [= <-].
  - cbn [string_empty andb]. intros Hb. apply IH. exact Hb.
Qed.

Lemma trim_end_front (s : string) (c : ascii) :
  Std.isspace c = false -> trim_end (String c s) = String c (trim_end s).
Proof.
  intros Hc. cbn [trim_end]. by rewrite Hc, andb_false_r.
Qed.

(** Text that does not end with white space is left alone. *)
Lemma trim_end_id (s : string) :
  (forall c, back s = Some c -> Std.isspace c = false) -> trim_end s = s.
Proof.
  induction s as [ | x s IH]; intros Hb; [done | ].
  cbn [trim_end]. destruct s as [ | y s].
  - cbn. by rewrite (Hb x eq_refl).
  - rewrite IH by (intros c Hc; by apply Hb).
    reflexivity.
Qed.

Lemma skip_space_id (s : string) :
  (forall c, front s = Some c -> Std.isspace c = false) -> Std.skip_space s = s.
Proof.
  destruct s as [ | x s]; intros Hf; [done | ].
  cbn. by rewrite (Hf x eq_refl).
Qed.

(** X4. The text [trim] returns neither begins nor ends with white space,
    and trimming it again changes nothing. *)
Theorem trim_strips_both_ends (s : string) :
  (forall c, front (trim s) = Some c -> Std.isspace c = false)
  /\ (forall c, back (trim s) = Some c -> Std.isspace c = false)
  /\ trim (trim s) = trim s.
Proof.
  assert (Hfront : forall c, front (trim s) = Some c -> Std.isspace c = false).
  { unfold trim. intros c.
    destruct (Std.skip_space s) as [ | x r] eqn:Hs; [discriminate | ].
    assert (Hx : Std.isspace x = false)
      by (apply (skip_space_front s); by rewrite Hs).
    rewrite trim_end_front by done. cbn. by intros [= <-]. }
  assert (Hback : forall c, back (trim s) = Some c -> Std.isspace c = false)
    by (intros c; apply trim_end_back).
  split_and!; [done | done | ].
  unfold trim at 1. by rewrite skip_space_id, trim_end_id.
Qed.

Lemma skip_space_all_space (s : string) :
  all_space s = true -> Std.skip_space s = EmptyString.
Proof.
  induction s as [ | x s IH]; [done | ]. cbn. intros Hs.
  apply andb_prop in Hs as [Hx Hs]. rewrite Hx. by apply IH.
Qed.

Section Lines.
Context `{Platform} {Plugin : Type} `{!WI.PluginHost Plugin}.
Implicit Types (i j : WI.t Plugin).

(** X5. A line of white space only, the empty line included, is executed
    without any effect: nothing is pushed, printed or thrown. *)
Theorem exec_line_blank line i :
  all_space line = true ->
  WI.exec_line line i = (Normal tt, i).
Proof.
  intros Hs. unfold WI.exec_line, trim.
  by rewrite skip_space_all_space.
Qed.

Lemma back_snoc (s : string) (c : ascii) :
  back (s +:+ String c EmptyString) = Some c.
Proof.
  induction s as [ | x s IH]; [done | ].
  rewrite string_app_cons. cbn [back]. rewrite IH.
  by destruct (s +:+ String c EmptyString) eqn:Hs; [destruct s | ].
Qed.

Lemma length_snoc (s : string) (c : ascii) :
  String.length (s +:+ String c EmptyString) = S (String.length s).
Proof.
  induction s as [ | x s IH]; [done | ].
  rewrite string_app_cons. cbn [String.length]. by rewrite IH.
Qed.

Lemma substring_prefix (s t : string) :
  substring 0 (String.length s) (s +:+ t) = s.
Proof.
  induction s as [ | x s IH]; [by destruct t | ].
  rewrite string_app_cons. cbn [String.length substring]. by rewrite IH.
Qed.

(** X6. A quotation with no quote inside, whatever white space it holds,
    is one token, and executing it as a line pushes one String value whose
    text is what stands between the quotes, as it is. *)
Theorem quoted_literal_is_pushed_verbatim (inner : string) i :
  no_quote inner = true ->
  let literal :=
    String Std.dquote (inner +:+ String Std.dquote EmptyString) in
  simple_tokenize literal = [literal]
  /\ WI.exec_line literal i =
       (Normal tt,
        WI.with_stack (WI.stack i ++ [WofValue.make_string inner]) i).
Proof.
  intros Hnq literal.
  assert (Htok : simple_tokenize literal = [literal]).
  { unfold simple_tokenize, literal.
    change (tokenize_loop
              (String Std.dquote (inner +:+ String Std.dquote EmptyString))
              tokenizer_init)
      with (tokenize_loop (inner +:+ String Std.dquote EmptyString)
              (mk_tokenizer [] (String Std.dquote EmptyString) true)).
    rewrite tokenize_loop_app.
    rewrite (tokenize_loop_in_quotes inner) by done.
    reflexivity. }
  split; [done | ].
  assert (Htrim : trim literal = literal).
  { unfold trim. rewrite skip_space_id.
    - apply trim_end_id. intros c. unfold literal.
      change (String Std.dquote (inner +:+ String Std.dquote EmptyString))
        with (String Std.dquote inner +:+ String Std.dquote EmptyString).
      rewrite back_snoc. by intros [= <-].
    - intros c. unfold literal. cbn. by intros [= <-]. }
  unfold WI.exec_line. rewrite Htrim, Htok.
  change (string_empty literal) with false. cbn [WI.dispatch_all].
  unfold WI.bind at 1. unfold WI.dispatch_token.
  assert (Hc : is_comment_token literal = false) by reflexivity.
  assert (Hlen : String.length literal = S (S (String.length inner))).
  { unfold literal. cbn [String.length]. by rewrite length_snoc. }
  assert (Hback : back literal = Some Std.dquote).
  { unfold literal.
    change (String Std.dquote (inner +:+ String Std.dquote EmptyString))
      with (String Std.dquote inner +:+ String Std.dquote EmptyString).
    apply back_snoc. }
  assert (Hq : is_quoted_token literal = true).
  { unfold is_quoted_token. rewrite Hlen, Hback. reflexivity. }
  rewrite Hc, Hq.
  assert (Hin : substring 1 (String.length literal - 2) literal = inner).
  { rewrite Hlen. unfold literal. cbn [Nat.sub substring].
    rewrite Nat.sub_0_r. apply substring_prefix. }
  rewrite Hin. reflexivity.
Qed.

End Lines.

(** ** The two numeric classifiers *)

Lemma float_scan_digits (s : string) (any : bool) :
  all_digits s = true -> float_scan s false any = false.
Proof.
  revert any. induction s as [ | c s IH]; intros any Hall.
  - cbn. by rewrite andb_false_r.
  - cbn in Hall. destruct (Std.isdigit c) eqn:Hc; [ | discriminate].
    cbn [float_scan]. rewrite Hc. by apply IH.
Qed.

(** X7. No token is both an integer literal and a float literal: the order
    of the two tests in [dispatch_token] does not matter. *)
Theorem integer_token_is_not_float_token (token : string) :
  is_integer_token token = true -> is_float_token token = false.
Proof.
  intros Hint.
  destruct (is_integer_token_inv token Hint)
    as (c & rest & -> & [[Hsign [Hne Hall]] | (Hplus & Hminus & Hd & Hall)]).
  - unfold is_float_token.
    destruct Hsign as [-> | ->]; cbn [Ascii.eqb Bool.eqb orb];
      by apply float_scan_digits.
  - unfold is_float_token.
    apply Ascii.eqb_neq in Hplus, Hminus. rewrite Hplus, Hminus.
    cbn [orb]. apply float_scan_digits. cbn. by rewrite Hd.
Qed.

Lemma isdigit_not_dot (c : ascii) :
  Std.isdigit c = true -> Ascii.eqb c "." = false.
Proof.
  intros Hd. destruct (Ascii.eqb_spec c ".") as [-> | _]; [discriminate | done].
Qed.

Lemma isdigit_not_sign (c : ascii) :
  Std.isdigit c = true -> Ascii.eqb c "+" || Ascii.eqb c "-" = false.
Proof.
  intros Hd. destruct (Ascii.eqb_spec c "+") as [-> | _]; [discriminate | ].
  destruct (Ascii.eqb_spec c "-") as [-> | _]; [discriminate | done].
Qed.

(** After the decimal point: digits only, and a digit somewhere. *)
Lemma float_scan_after_dot (s : string) (any : bool) :
  float_scan s true any = true <->
  all_digits s = true /\ (any = true \/ s <> EmptyString).
Proof.
  revert any. induction s as [ | c s IH]; intros any.
  - cbn. rewrite andb_true_r. split.
    + intros ->. split; [done | by left].
    + by intros [_ [? | ?]].
  - cbn [float_scan all_digits]. destruct (Std.isdigit c) eqn:Hc; cbn [negb].
    + rewrite IH. split.
      * intros [Hall _]. split; [done | ]. by right.
      * intros [Hall _]. split; [done | ]. by left.
    + destruct (Ascii.eqb c "."); split; try discriminate; by intros [? _].
Qed.

(** Before the decimal point: digits, the point, then the rest. *)
Lemma float_scan_before_dot (s : string) (any : bool) :
  float_scan s false any = true <->
  exists before after : string,
    s = before +:+ "." +:+ after
    /\ all_digits before = true
    /\ all_digits after = true
    /\ (any = true \/ before <> EmptyString \/ after <> EmptyString).
Proof.
  revert any. induction s as [ | c s IH]; intros any.
  - cbn. rewrite andb_false_r. split; [discriminate | ].
    intros (before & after & Heq & _). by destruct before.
  - cbn [float_scan]. destruct (Std.isdigit c) eqn:Hc.
    + rewrite IH. split.
      * intros (before & after & -> & Hb & Ha & _).
        exists (String c before), after. split_and!; try done.
        -- cbn. by rewrite Hc.
        -- right. by left.
      * intros (before & after & Heq & Hb & Ha & _).
        destruct before as [ | x before].
        -- rewrite string_app_nil_l, string_app_cons in Heq.
           injection Heq as -> _. discriminate.
        -- rewrite string_app_cons in Heq. injection Heq as <- ->.
           cbn in Hb. rewrite Hc in Hb. cbn in Hb.
           exists before, after. split_and!; try done. by left.
    + destruct (Ascii.eqb_spec c ".") as [-> | Hdot].
      * rewrite float_scan_after_dot. split.
        -- intros [Hall Hany]. exists EmptyString, s.
           split_and!; try done. destruct Hany as [? | ?]; [by left | ].
           right. by right.
        -- intros (before & after & Heq & Hb & Ha & Hany).
           destruct before as [ | x before].
           ++ rewrite string_app_nil_l, string_app_cons, string_app_nil_l in Heq.
              injection Heq as ->. split; [done | ].
              destruct Hany as [? | [? | ?]]; [by left | done | by right].
           ++ rewrite string_app_cons in Heq. injection Heq as <- _.
              cbn in Hb. discriminate.
      * split; [discriminate | ].
        intros (before & after & Heq & Hb & _).
        destruct before as [ | x before].
        -- rewrite string_app_nil_l, string_app_cons in Heq.
           by injection Heq as -> _.
        -- rewrite string_app_cons in Heq. injection Heq as <- _.
           cbn in Hb. by rewrite Hc in Hb.
Qed.

(** X8. [is_float_token] accepts exactly the tokens made of an optional
    sign, digits, one decimal point and digits, with at least one digit:
    a digit is not needed on both sides of the point. *)
Theorem is_float_token_shape (token : string) :
  is_float_token token = true <-> float_literal_shape token.
Proof.
  unfold float_literal_shape. split.
  - destruct token as [ | c rest]; [discriminate | ]. unfold is_float_token.
    destruct (Ascii.eqb c "+" || Ascii.eqb c "-") eqn:Hsign.
    + intros Hscan. apply float_scan_before_dot in Hscan
        as (before & after & -> & Hb & Ha & Hany).
      exists (String c EmptyString), before, after. split_and!; try done.
      * apply orb_prop in Hsign as [Hs | Hs]; apply Ascii.eqb_eq in Hs;
          subst c; [right; by left | right; by right].
      * by destruct Hany as [? | ?].
    + intros Hscan. apply float_scan_before_dot in Hscan
        as (before & after & Heq & Hb & Ha & Hany).
      exists EmptyString, before, after. split_and!; try done.
      * by left.
      * by destruct Hany as [? | ?].
  - intros (sign & before & after & -> & Hsign & Hb & Ha & Hany).
    assert (Hscan : float_scan (before +:+ "." +:+ after) false false = true).
    { apply float_scan_before_dot. exists before, after.
      split_and!; try done. by right. }
    destruct Hsign as [-> | [-> | ->]].
    + rewrite string_app_nil_l. unfold is_float_token.
      destruct before as [ | x before].
      * by rewrite string_app_nil_l in *.
      * rewrite string_app_cons in *. cbn in Hb.
        destruct (Std.isdigit x) eqn:Hx; [ | discriminate].
        by rewrite (isdigit_not_sign x Hx).
    + exact Hscan.
    + exact Hscan.
Qed.

(** ** The table of the constructor *)

Section CoreTable.
Context `{Platform} {Plugin : Type} `{!WI.PluginHost Plugin}.
Implicit Types (i j : WI.t Plugin).

(** X9. The constructor leaves exactly nine entries in the table, and each
    registered name can be invoked: none of them is taken for a comment, a
    quoted string or a number, so dispatching the name runs its lambda in
    every interpreter that has this entry. *)
Theorem core_operators_are_reachable out :
  WI.stack (WI.construct (Plugin := Plugin) out) = []
  /\ WI.cout (WI.construct (Plugin := Plugin) out) = out
  /\ WI.ops (WI.construct (Plugin := Plugin) out) =
       list_to_map (map (fun p => (fst p, WI.core_lambda (snd p))) core_table)
  /\ (forall name o i,
        In (name, o) core_table ->
        WI.ops i !! name = Some (WI.core_lambda o) ->
        WI.dispatch_token name i = WI.core_op o i).
Proof.
  split_and!; try reflexivity.
  intros name o i Hin Hlook.
  assert (Hclass :
    is_comment_token name = false /\ is_quoted_token name = false
    /\ is_integer_token name = false /\ is_float_token name = false).
  { cbn in Hin.
    repeat (destruct Hin as [[= <- <-] | Hin]; [by split_and! | ]).
    destruct Hin. }
  destruct Hclass as (Hc & Hq & Hi & Hf).
  rewrite dispatch_token_lookup by done. by rewrite Hlook.
Qed.

End CoreTable.

(** ** The stack operators at the edges *)

Lemma swap_top_snoc (rest : list WofValue.t) (a b : WofValue.t) :
  WI.swap_top (rest ++ [a; b]) = rest ++ [b; a].
Proof.
  unfold WI.swap_top. rewrite length_app. cbn [length].
  replace (length rest + 2 - 1)%nat with (length rest + 1)%nat by lia.
  replace (length rest + 2 - 2)%nat with (length rest + 0)%nat by lia.
  rewrite !lookup_app_r by lia.
  replace (length rest + 1 - length rest)%nat with 1%nat by lia.
  replace (length rest + 0 - length rest)%nat with 0%nat by lia.
  cbn [lookup list_lookup].
  rewrite !insert_app_r. reflexivity.
Qed.

Section StackEdges.
Context `{Platform} {Plugin : Type} `{!WI.PluginHost Plugin}.
Implicit Types (i j : WI.t Plugin) (v a b : WofValue.t)
  (rest : list WofValue.t).

Lemma swap_run i rest a b :
  WI.stack i = rest ++ [a; b] ->
  WI.core_op op_swap i = (Normal tt, WI.with_stack (rest ++ [b; a]) i).
Proof.
  intros Hs. destruct i as [s o c]. cbn in Hs. subst s.
  unfold WI.core_op, WI.bind, WI.stack_has, WI.get_stack, WI.ret, WI.when. cbn.
  rewrite length_app. cbn [length].
  replace (length rest + 2)%nat with (S (S (length rest))) by lia. cbn.
  unfold WI.set_stack. by rewrite swap_top_snoc.
Qed.

(** X10. [swap] exchanges the two topmost values and touches nothing else:
    the values below, the table and the output stay as they are. *)
Theorem swap_exchanges_top_two i rest a b :
  WI.stack i = rest ++ [a; b] ->
  WI.core_op op_swap i = (Normal tt, WI.with_stack (rest ++ [b; a]) i).
Proof. apply swap_run. Qed.

(** X11. On a stack of at least two values, [swap] followed by [swap] gives
    back the interpreter it started from. *)
Theorem swap_twice_is_identity i :
  (2 <= length (WI.stack i))%nat ->
  WI.bind (WI.core_op op_swap) (fun _ => WI.core_op op_swap) i = (Normal tt, i).
Proof.
  intros Hlen.
  assert (Hsplit : exists rest a b, WI.stack i = rest ++ [a; b]).
  { destruct (WI.stack i) as [ | x s] using rev_ind; [cbn in Hlen; lia | ].
    destruct s as [ | y s _] using rev_ind.
    - cbn in Hlen. lia.
    - exists s, y, x. by rewrite <- app_assoc. }
  destruct Hsplit as (rest & a & b & Hs).
  unfold WI.bind. rewrite (swap_run i rest a b Hs).
  rewrite (swap_run (WI.with_stack (rest ++ [b; a]) i) rest b a
             (stack_with_stack _ _)).
  rewrite with_stack_twice, <- Hs. by rewrite with_stack_same.
Qed.

(** X12. On a stack that is too short, [dup], [drop] and [swap] throw their
    own message and leave the interpreter exactly as it was; [swap] on a
    single value does not remove it. *)
Theorem stack_operators_underflow i :
  (WI.stack i = [] ->
   WI.core_op op_dup i =
     (Throw (runtime_error "dup requires at least one value on the stack"), i)
   /\ WI.core_op op_drop i =
     (Throw (runtime_error "drop requires at least one value on the stack"), i))
  /\ ((length (WI.stack i) < 2)%nat ->
      WI.core_op op_swap i =
        (Throw (runtime_error "swap requires at least two values on the stack"),
         i)).
Proof.
  split.
  - intros Hs. destruct i as [s o c]. cbn in Hs. subst s. by split.
  - intros Hlen. destruct i as [s o c]. cbn in Hlen.
    destruct s as [ | x [ | y s]]; [done | done | cbn in Hlen; lia].
Qed.

(** A value whose payload matches its tag has a text. *)
Lemma to_string_normal v :
  WofValue.payload_matches_tag v = true ->
  exists s, WofValue.to_string v = Normal s.
Proof.
  destruct v as [ty [ | n | d | x] [u | ]]; destruct ty; try discriminate;
    intros _; unfold WofValue.to_string; cbn; eauto.
Qed.

Lemma write_run (s : string) i :
  WI.write s i = (Normal tt, WI.mk (WI.stack i) (WI.ops i) (WI.cout i +:+ s)).
Proof. reflexivity. Qed.

Lemma print_entries_run (l : list WofValue.t) (k : nat) i :
  Forall (fun v => WofValue.payload_matches_tag v = true) l ->
  exists text,
    WI.print_entries k l i =
      (Normal tt, WI.mk (WI.stack i) (WI.ops i) (WI.cout i +:+ text)).
Proof.
  revert k i. induction l as [ | v l IH]; intros k i Hwf.
  - exists EmptyString. cbn. rewrite string_app_nil_r. by destruct i.
  - apply Forall_cons in Hwf as [Hv Hl].
    destruct (to_string_normal v Hv) as [s Hs].
    cbn [WI.print_entries]. unfold WI.bind at 1. rewrite write_run.
    unfold WI.bind at 1. unfold WI.lift. rewrite Hs.
    unfold WI.bind at 1. rewrite write_run. cbn [WI.stack WI.ops WI.cout].
    destruct (IH (S k) (WI.mk (WI.stack i) (WI.ops i)
                  ((WI.cout i +:+ ("  [" +:+ Std.put_unsigned (Z.of_nat k) +:+ "] "))
                   +:+ (s +:+ WI.endl))) Hl) as [text Htext].
    rewrite Htext. cbn [WI.stack WI.ops WI.cout].
    exists (("  [" +:+ Std.put_unsigned (Z.of_nat k) +:+ "] ")
            +:+ (s +:+ WI.endl) +:+ text).
    by rewrite !string_app_assoc.
Qed.

(** X13. [print] and [.s] only write: on a stack of values whose payload
    matches their tag, the empty stack included, they do not throw and leave
    the stack and the table as they are, and what was written before stays
    in front of what they add. On the empty stack [print] writes
    "(stack empty)". *)
Theorem printing_is_read_only i :
  Forall (fun v => WofValue.payload_matches_tag v = true) (WI.stack i) ->
  (exists text,
     WI.core_op op_print i =
       (Normal tt, WI.mk (WI.stack i) (WI.ops i) (WI.cout i +:+ text)))
  /\ (exists text,
        WI.core_op op_dot_s i =
          (Normal tt, WI.mk (WI.stack i) (WI.ops i) (WI.cout i +:+ text)))
  /\ (WI.stack i = [] ->
      WI.core_op op_print i =
        (Normal tt,
         WI.mk [] (WI.ops i) (WI.cout i +:+ "(stack empty)" +:+ WI.endl))).
Proof.
  intros Hwf. split_and!.
  - destruct i as [s o c]. cbn in Hwf.
    destruct s as [ | x s _] using rev_ind.
    + eexists. reflexivity.
    + rewrite Forall_app, Forall_singleton in Hwf. destruct Hwf as [_ Hx].
      destruct (to_string_normal x Hx) as [txt Htxt].
      exists (txt +:+ WI.endl).
      unfold WI.core_op, WI.bind, WI.stack_has, WI.get_stack, WI.ret. cbn.
      rewrite length_app, Nat.add_1_r. cbn.
      unfold WI.lift. rewrite last_snoc. cbn. by rewrite Htxt.
  - cbn [WI.core_op]. unfold WI.print_stack, WI.bind, WI.get_stack.
    rewrite write_run.
    destruct (print_entries_run (WI.stack i) 0
                (WI.mk (WI.stack i) (WI.ops i)
                   (WI.cout i +:+ "Stack [" +:+
                    Std.put_unsigned (Z.of_nat (length (WI.stack i)))
                    +:+ "]" +:+ WI.endl)) Hwf) as [text Htext].
    cbn [WI.stack WI.ops WI.cout] in Htext. rewrite Htext.
    exists (("Stack [" +:+ Std.put_unsigned (Z.of_nat (length (WI.stack i)))
             +:+ "]" +:+ WI.endl) +:+ text).
    by rewrite string_app_assoc.
  - intros Hs. destruct i as [s o c]. cbn in Hs. subst s. reflexivity.
Qed.

End StackEdges.

(** ** Typed pops and failed operations *)

Section TypedPopEdges.
Context `{Platform} {Plugin : Type} `{!WI.PluginHost Plugin}.
Implicit Types (i j : WI.t Plugin) (v a b : WofValue.t)
  (rest : list WofValue.t).

(** A typed pop is [pop] followed by code that reads the popped value and
    never touches the interpreter. *)
Lemma bind_pop_state {A} (k : WofValue.t -> WI.M Plugin A) i rest v :
  WI.stack i = rest ++ [v] ->
  (forall j, snd (k v j) = j) ->
  snd (WI.bind WI.pop k i) = WI.with_stack rest i.
Proof.
  intros Hs Hk. unfold WI.bind. rewrite (pop_snoc i rest v Hs). apply Hk.
Qed.

(** X14. Every typed pop removes the top value before it looks at its tag:
    on a non-empty stack the value is gone afterwards whether the pop
    returned or threw a type error, and nothing else has changed. *)
Theorem typed_pop_always_consumes i rest v :
  WI.stack i = rest ++ [v] ->
  snd (WI.pop_int i) = WI.with_stack rest i
  /\ snd (WI.pop_double i) = WI.with_stack rest i
  /\ snd (WI.pop_numeric i) = WI.with_stack rest i
  /\ snd (WI.pop_string i) = WI.with_stack rest i
  /\ snd (WI.pop_symbol i) = WI.with_stack rest i
  /\ snd (WI.pop_bool i) = WI.with_stack rest i.
Proof.
  intros Hs.
  split_and!; apply (bind_pop_state _ i rest v Hs); intros j;
    destruct v as [ty val u]; destruct ty, val; reflexivity.
Qed.

(** X15. What the typed pops accept, on a top value whose payload matches
    its tag: [pop_double] and [pop_numeric] return what [as_numeric] returns
    and differ in the message of their type error only; [pop_string] returns
    the text of a String or a Symbol; [pop_symbol] returns the text of a
    Symbol and rejects a String. *)
Theorem typed_pop_acceptance i rest v :
  WI.stack i = rest ++ [v] ->
  WofValue.payload_matches_tag v = true ->
  fst (WI.pop_numeric i) =
    (if WofValue.is_numeric v then WofValue.as_numeric v
     else Throw (runtime_error "pop_numeric: value is not numeric"))
  /\ fst (WI.pop_double i) =
    (if WofValue.is_numeric v then WofValue.as_numeric v
     else Throw (runtime_error "pop_double: value is not numeric"))
  /\ fst (WI.pop_string i) =
    (match WofValue.type v with
     | WofType.String | WofType.Symbol => get_string (WofValue.value v)
     | _ => Throw (runtime_error "pop_string: value is not a string")
     end)
  /\ fst (WI.pop_symbol i) =
    (match WofValue.type v with
     | WofType.Symbol => get_string (WofValue.value v)
     | _ => Throw (runtime_error "pop_symbol: value is not a symbol")
     end)
  /\ (is_normal (fst (WI.pop_symbol i)) = true ->
      fst (WI.pop_string i) = fst (WI.pop_symbol i)).
Proof.
  intros Hs Hwf.
  unfold WI.pop_numeric, WI.pop_double, WI.pop_string, WI.pop_symbol, WI.bind.
  rewrite (pop_snoc i rest v Hs).
  destruct v as [ty val u]; destruct ty, val; try discriminate;
    split_and!; try reflexivity; try discriminate.
Qed.

Lemma pop_numeric_type_error i rest v :
  WI.stack i = rest ++ [v] ->
  WofValue.is_numeric v = false ->
  WI.pop_numeric i =
    (Throw (runtime_error "pop_numeric: value is not numeric"),
     WI.with_stack rest i).
Proof.
  intros Hs Hv. unfold WI.pop_numeric, WI.bind. rewrite (pop_snoc i rest v Hs).
  destruct v as [ty val u]; destruct ty; try discriminate; reflexivity.
Qed.

(** X16. The arithmetic operators do not put back what they popped. When
    the value below the top is not numeric, both operands are gone when the
    type error is thrown; when the stack holds a single numeric value, that
    value is gone when "stack underflow" is thrown. *)
Theorem arithmetic_failure_keeps_nothing (o : CoreOp) i rest a b db :
  o = op_add \/ o = op_sub \/ o = op_mul \/ o = op_div ->
  WofValue.as_numeric b = Normal db ->
  (WI.stack i = rest ++ [a; b] ->
   WofValue.is_numeric a = false ->
   WI.core_op o i =
     (Throw (runtime_error "pop_numeric: value is not numeric"),
      WI.with_stack rest i))
  /\ (WI.stack i = [b] ->
      WI.core_op o i =
        (Throw (runtime_error "stack underflow"), WI.with_stack [] i)).
Proof.
  intros Ho Hb. split.
  - intros Hs Ha.
    assert (Hs' : WI.stack i = (rest ++ [a]) ++ [b])
      by (by rewrite <- app_assoc).
    destruct Ho as [-> | [-> | [-> | ->]]]; cbn [WI.core_op];
      unfold WI.arith; unfold WI.bind at 1;
      rewrite (pop_numeric_snoc i (rest ++ [a]) b db Hs' Hb);
      unfold WI.bind at 1;
      by rewrite (pop_numeric_type_error (WI.with_stack (rest ++ [a]) i)
                    rest a (stack_with_stack _ _) Ha).
  - intros Hs.
    destruct Ho as [-> | [-> | [-> | ->]]]; cbn [WI.core_op];
      unfold WI.arith; unfold WI.bind at 1;
      rewrite (pop_numeric_snoc i [] b db Hs Hb);
      unfold WI.bind at 1; unfold WI.pop_numeric; unfold WI.bind at 1;
      by rewrite (pop_empty (WI.with_stack [] i) eq_refl).
Qed.

Lemma dispatch_all_app (l1 l2 : list string) i :
  WI.dispatch_all (l1 ++ l2) i =
    WI.bind (WI.dispatch_all l1) (fun _ => WI.dispatch_all l2) i.
Proof.
  revert i. induction l1 as [ | tok l1 IH]; intros i; [done | ].
  cbn [app WI.dispatch_all]. unfold WI.bind in *.
  destruct (WI.dispatch_token tok i) as [[[] | e] j]; [apply IH | done].
Qed.

(** X17. The tokens of a line are dispatched in order and the first one that
    throws ends the line: the tokens after it are not dispatched, and the
    interpreter is left in the state the failing token left, with the
    effects of the earlier tokens. *)
Theorem dispatch_stops_at_first_throw (before after : list string)
    (tok : string) i j k e :
  WI.dispatch_all before i = (Normal tt, j) ->
  WI.dispatch_token tok j = (Throw e, k) ->
  WI.dispatch_all (before ++ tok :: after) i = (Throw e, k).
Proof.
  intros Hbefore Htok. rewrite dispatch_all_app. unfold WI.bind at 1.
  rewrite Hbefore. cbn [WI.dispatch_all]. unfold WI.bind at 1.
  by rewrite Htok.
Qed.

End TypedPopEdges.

(** ** [operator==] as a relation *)

(** Two doubles compare equal when both are zeros, of either sign, or when
    they are the same number, which is not a NaN. *)
Lemma Double_eqb_true (a b : Double.t) :
  Double.eqb a b = true <->
  (is_zero a = true /\ is_zero b = true) \/ (a = b /\ Double.is_nan a = false).
Proof.
  unfold Double.eqb, SFeqb.
  destruct a as [[] | [] | | [] ma ea], b as [[] | [] | | [] mb eb];
    cbn [SFcompare is_zero Double.is_nan];
    try (split; [discriminate | intros [[? ?] | [? ?]]; discriminate]);
    try (split; [intros _; first [by left | by right] | done]).
  - split.
    + intros Hcmp. right.
      destruct (Z.compare_spec ea eb) as [-> | ? | ?]; try discriminate.
      rewrite Pos.compare_cont_spec in Hcmp. cbn in Hcmp.
      destruct (Pos.compare_spec ma mb) as [-> | ? | ?]; by try discriminate.
    + intros [[? ?] | [[= -> ->] _]]; [discriminate | ].
      by rewrite Z.compare_refl, Pos.compare_cont_refl.
  - split.
    + intros Hcmp. right.
      destruct (Z.compare_spec ea eb) as [-> | ? | ?]; try discriminate.
      rewrite Pos.compare_cont_spec in Hcmp. cbn in Hcmp.
      destruct (Pos.compare_spec ma mb) as [-> | ? | ?]; by try discriminate.
    + intros [[? ?] | [[= -> ->] _]]; [discriminate | ].
      by rewrite Z.compare_refl, Pos.compare_cont_refl.
Qed.

Lemma Double_eqb_sym (a b : Double.t) : Double.eqb a b = Double.eqb b a.
Proof.
  apply eq_true_iff_eq. rewrite !Double_eqb_true. split.
  - intros [[? ?] | [-> ?]]; [by left | by right].
  - intros [[? ?] | [-> ?]]; [by left | by right].
Qed.

Lemma Double_eqb_trans (a b c : Double.t) :
  Double.eqb a b = true -> Double.eqb b c = true -> Double.eqb a c = true.
Proof.
  rewrite !Double_eqb_true.
  intros [[Ha Hb] | [-> Ha]] [[Hb' Hc] | [-> Hb']].
  - by left.
  - by left.
  - by left.
  - by right.
Qed.

Lemma WofType_eqb_eq (a b : WofType.t) : WofType.eqb a b = true <-> a = b.
Proof. destruct a, b; split; try done; discriminate. Qed.

Lemma Storage_eqb_sym (a b : Storage) : Storage_eqb a b = Storage_eqb b a.
Proof.
  destruct a, b; cbn; try reflexivity.
  - apply Z.eqb_sym.
  - apply Double_eqb_sym.
  - apply String.eqb_sym.
Qed.

Lemma Storage_eqb_trans (a b c : Storage) :
  Storage_eqb a b = true -> Storage_eqb b c = true -> Storage_eqb a c = true.
Proof.
  destruct a, b, c; cbn; try done.
  - rewrite !Z.eqb_eq. congruence.
  - apply Double_eqb_trans.
  - rewrite !String.eqb_eq. congruence.
Qed.

(** [operator==] in one piece: equal tags, units both absent or equal by
    name and scale, payloads equal. *)
Lemma operator_eq_true (a b : WofValue.t) :
  WofValue.operator_eq a b = true <->
  WofValue.type a = WofValue.type b
  /\ match WofValue.unit a, WofValue.unit b with
     | Some u, Some u' =>
         UnitInfo.name u = UnitInfo.name u'
         /\ Double.eqb (UnitInfo.scale u) (UnitInfo.scale u') = true
     | None, None => True
     | _, _ => False
     end
  /\ Storage_eqb (WofValue.value a) (WofValue.value b) = true.
Proof.
  unfold WofValue.operator_eq.
  destruct (WofType.eqb (WofValue.type a) (WofValue.type b)) eqn:Hty; cbn [negb].
  - apply WofType_eqb_eq in Hty.
    destruct (WofValue.unit a) as [u | ], (WofValue.unit b) as [u' | ].
    + unfold Double.neqb. fold (Double.eqb (UnitInfo.scale u) (UnitInfo.scale u')).
      destruct (String.eqb_spec (UnitInfo.name u) (UnitInfo.name u')) as [Hn | Hn];
        destruct (Double.eqb (UnitInfo.scale u) (UnitInfo.scale u')); cbn;
        split; try discriminate; try (by intros (_ & [? ?] & _)); try tauto.
    + split; [discriminate | tauto].
    + split; [discriminate | tauto].
    + tauto.
  - split; [discriminate | ]. intros (Heq & _).
    apply WofType_eqb_eq in Heq. congruence.
Qed.

(** X18. [operator==] is symmetric and transitive: the order of the two
    values does not matter, and values equal to a common value are equal to
    each other. (It is reflexive on the values that carry no NaN only.) *)
Theorem operator_eq_symmetric_transitive (a b c : WofValue.t) :
  WofValue.operator_eq a b = WofValue.operator_eq b a
  /\ (WofValue.operator_eq a b = true ->
      WofValue.operator_eq b c = true ->
      WofValue.operator_eq a c = true)
  /\ WofValue.operator_ne a b = negb (WofValue.operator_eq b a).
Proof.
  assert (Hsym : forall x y,
    WofValue.operator_eq x y = true -> WofValue.operator_eq y x = true).
  { intros x y. rewrite !operator_eq_true. intros (Hty & Hu & Hv).
    split_and!; [done | | by rewrite Storage_eqb_sym].
    destruct (WofValue.unit x), (WofValue.unit y); try done.
    destruct Hu as [Hn Hs]. split; [done | by rewrite Double_eqb_sym]. }
  assert (Heq : WofValue.operator_eq a b = WofValue.operator_eq b a).
  { apply eq_true_iff_eq. split; apply Hsym. }
  split_and!.
  - exact Heq.
  - rewrite !operator_eq_true. intros (Hty & Hu & Hv) (Hty' & Hu' & Hv').
    split_and!.
    + congruence.
    + destruct (WofValue.unit a) as [ua | ], (WofValue.unit b) as [ub | ],
        (WofValue.unit c) as [uc | ]; try done.
      destruct Hu as [Hn Hs], Hu' as [Hn' Hs']. split; [congruence | ].
      by apply Double_eqb_trans with (UnitInfo.scale ub).
    + by apply Storage_eqb_trans with (WofValue.value b).
  - unfold WofValue.operator_ne. by rewrite Heq.
Qed.

(** ** From an integer to its text and back *)

Lemma digit_char_digit (d : Z) :
  0 <= d <= 9 ->
  Std.isdigit (Std.digit_char d) = true
  /\ Std.digit_value (Std.digit_char d) = d.
Proof.
  intros Hd.
  assert (Hcases : d = 0 \/ d = 1 \/ d = 2 \/ d = 3 \/ d = 4 \/ d = 5
                   \/ d = 6 \/ d = 7 \/ d = 8 \/ d = 9) by lia.
  destruct Hcases as [-> | [-> | [-> | [-> | [-> | [-> | [-> | [-> | [-> | ->]]]]]]]]];
    by split.
Qed.

Lemma all_digits_app (a b : string) :
  all_digits (a +:+ b) = all_digits a && all_digits b.
Proof.
  induction a as [ | c a IH]; [done | ].
  rewrite string_app_cons. cbn [all_digits]. rewrite IH.
  by destruct (Std.isdigit c).
Qed.

Lemma read_digits_app (a b : string) (acc : Z) (seen : bool) :
  all_digits a = true ->
  Std.read_digits (a +:+ b) acc seen =
    Std.read_digits b (fst (Std.read_digits a acc seen))
      (snd (Std.read_digits a acc seen)).
Proof.
  revert acc seen. induction a as [ | c a IH]; intros acc seen Hall; [done | ].
  cbn in Hall. destruct (Std.isdigit c) eqn:Hc; [ | discriminate].
  rewrite string_app_cons. cbn [Std.read_digits]. rewrite Hc. by apply IH.
Qed.

(** The text of a natural number is a non-empty run of digits whose value
    is the number. *)
Lemma put_unsigned_reads_back (n : Z) :
  0 <= n ->
  all_digits (Std.put_unsigned n) = true
  /\ string_empty (Std.put_unsigned n) = false
  /\ Std.read_digits (Std.put_unsigned n) 0 false = (n, true).
Proof.
  revert n. apply (Zlt_0_ind
    (fun n => all_digits (Std.put_unsigned n) = true
              /\ string_empty (Std.put_unsigned n) = false
              /\ Std.read_digits (Std.put_unsigned n) 0 false = (n, true))).
  intros n IH Hnn.
  destruct (Z_lt_le_dec n 10) as [Hsmall | Hbig].
  - rewrite put_unsigned_digit by lia.
    destruct (digit_char_digit n ltac:(lia)) as [Hdig Hval].
    cbn. rewrite Hdig. cbn. by rewrite Hval.
  - pose proof (Z.div_mod n 10 ltac:(lia)) as Hdm.
    pose proof (Z.mod_pos_bound n 10 ltac:(lia)) as Hmod.
    assert (Hq : 0 < n / 10) by (apply Z.div_str_pos; lia).
    assert (Hn : n = n / 10 * 10 + n mod 10) by lia.
    destruct (IH (n / 10) ltac:(lia)) as (Hall & Hne & Hread).
    destruct (digit_char_digit (n mod 10) ltac:(lia)) as [Hdig Hval].
    rewrite Hn at 1 2 3. rewrite put_unsigned_snoc by lia.
    split_and!.
    + rewrite all_digits_app, Hall. cbn. by rewrite Hdig.
    + by destruct (Std.put_unsigned (n / 10)).
    + rewrite read_digits_app, Hread by done. cbn. rewrite Hdig, Hval.
      f_equal. lia.
Qed.

Lemma put_int64_is_integer_token (v : Z) :
  is_integer_token (Std.put_int64 v) = true
  /\ literal_value (Std.put_int64 v) = v.
Proof.
  unfold Std.put_int64. destruct (Z.ltb_spec v 0) as [Hneg | Hnn].
  - destruct (put_unsigned_reads_back (- v) ltac:(lia)) as (Hall & Hne & Hread).
    unfold is_integer_token, literal_value.
    cbn [Ascii.eqb Bool.eqb orb]. cbn match.
    rewrite Hne, Hall, Hread. cbn. split; [done | lia].
  - destruct (put_unsigned_reads_back v Hnn) as (Hall & Hne & Hread).
    destruct (Std.put_unsigned v) as [ | c rest] eqn:Hput; [discriminate | ].
    assert (Hc : Std.isdigit c = true).
    { cbn in Hall. by destruct (Std.isdigit c). }
    pose proof (isdigit_not_sign c Hc) as Hsign.
    unfold is_integer_token, literal_value. rewrite Hsign.
    apply orb_false_elim in Hsign as [Hplus Hminus].
    by rewrite Hplus, Hminus, Hall, Hread.
Qed.

Section IntegerText.
Context `{Platform} {Plugin : Type} `{!WI.PluginHost Plugin}.
Implicit Types (i : WI.t Plugin).

(** X19. The text of an Integer value reads back as that value: for every
    64-bit integer, [to_string] gives an integer literal, and dispatching
    that literal pushes an Integer value equal to the one printed. *)
Theorem integer_text_reads_back (v : Z) i :
  Std.LLONG_MIN <= v <= Std.LLONG_MAX ->
  exists text,
    WofValue.to_string (WofValue.make_int v) = Normal text
    /\ is_integer_token text = true
    /\ Std.stoll text = Normal v
    /\ WI.dispatch_token text i =
         (Normal tt, WI.with_stack (WI.stack i ++ [WofValue.make_int v]) i).
Proof.
  intros [Hlo Hhi]. exists (Std.put_int64 v).
  destruct (put_int64_is_integer_token v) as [Hint Hval].
  assert (Hstoll : Std.stoll (Std.put_int64 v) = Normal v).
  { rewrite (stoll_integer_token _ Hint), Hval.
    apply Z.leb_le in Hlo, Hhi. by rewrite Hlo, Hhi. }
  destruct (integer_token_not_comment_not_quoted _ Hint) as [Hc Hq].
  split_and!; try done.
  unfold WI.dispatch_token. rewrite Hc, Hq, Hint.
  unfold WI.bind, WI.lift. by rewrite Hstoll.
Qed.

End IntegerText.

(** ** The simplification plugin *)

Module SSR := SymbolicSimplifyRulesPlugin.

Section SimplifyRules.
Context `{Platform} {Plugin : Type}.
Implicit Types (i j : WI.t Plugin) (x top : WofValue.t)
  (rest : list WofValue.t).

Lemma take_back_snoc i rest v :
  WI.stack i = rest ++ [v] ->
  SSR.take_back i = (Normal v, WI.with_stack rest i).
Proof.
  intros Hs.
  unfold SSR.take_back, WI.bind, WI.get_stack, WI.set_stack, WI.ret.
  by rewrite Hs, removelast_last, vector_back_snoc.
Qed.

Lemma length_two_more rest x top :
  (length (rest ++ [x; top]) <? 2)%nat = false.
Proof. rewrite length_app. cbn [length]. apply Nat.ltb_ge. lia. Qed.

(** X20. On a stack of fewer than two values, every rule of the plugin
    writes its notice and returns: it does not throw, and the stack and the
    table are left as they are. *)
Theorem simplify_rule_underflow (o : SSR.op) i :
  (length (WI.stack i) < 2)%nat ->
  SSR.lambda o i =
    (Normal tt,
     WI.mk (WI.stack i) (WI.ops i)
       (WI.cout i +:+ "[" +:+ rule_name o +:+ "] needs at least 2 values"
        +:+ SSR.newline)).
Proof.
  intros Hlen. destruct i as [s t c]. cbn in Hlen.
  destruct s as [ | a [ | b s]]; [ | | cbn in Hlen; lia];
    by destruct o.
Qed.

(** X21. When its pattern matches the two topmost values, a rule replaces
    them by its result (2 and X for X + X, X for X * 1 and X + 0, 0 for
    X * 0), leaves the values below and the table untouched, and only adds
    to the output. *)
Theorem simplify_rule_fires (o : SSR.op) i rest x top :
  WI.stack i = rest ++ [x; top] ->
  rule_applies o x top = true ->
  exists text,
    SSR.lambda o i =
      (Normal tt,
       WI.mk (rest ++ rule_result o x) (WI.ops i) (WI.cout i +:+ text)).
Proof.
  intros Hs Happ.
  assert (Hs' : WI.stack i = (rest ++ [x]) ++ [top])
    by (by rewrite <- app_assoc).
  assert (Hlen : (length (WI.stack i) <? 2)%nat = false)
    by (rewrite Hs; apply length_two_more).
  destruct o; unfold SSR.lambda;
    unfold WI.bind at 1; unfold WI.get_stack at 1; rewrite Hlen;
    unfold WI.bind at 1; rewrite (take_back_snoc i (rest ++ [x]) top Hs');
    unfold WI.bind at 1;
    rewrite (take_back_snoc (WI.with_stack (rest ++ [x]) i) rest x
               (stack_with_stack _ _));
    unfold rule_applies, integer_is in Happ.
  - destruct x as [tx [ | | | a] ux]; destruct tx; try discriminate;
      destruct top as [tt [ | | | b] ut]; destruct tt; try discriminate.
    cbn in Happ. eexists.
    unfold WI.bind, WI.lift, SSR.push_back, WI.bind, WI.get_stack,
      WI.set_stack, WI.write. cbn. rewrite Happ. cbn.
    by rewrite <- app_assoc.
  - destruct top as [tt [ | n | | ] ut]; destruct tt; try discriminate.
    cbn in Happ. eexists.
    unfold WI.bind, SSR.is_integer, WI.bind, WI.lift, WI.ret, SSR.push_back,
      WI.bind, WI.get_stack, WI.set_stack, WI.write. cbn. rewrite Happ.
    reflexivity.
  - destruct top as [tt [ | n | | ] ut]; destruct tt; try discriminate.
    cbn in Happ. eexists.
    unfold WI.bind, SSR.is_integer, WI.bind, WI.lift, WI.ret, SSR.push_back,
      WI.bind, WI.get_stack, WI.set_stack, WI.write. cbn. rewrite Happ.
    reflexivity.
  - destruct top as [tt [ | n | | ] ut]; destruct tt; try discriminate.
    cbn in Happ. eexists.
    unfold WI.bind, SSR.is_integer, WI.bind, WI.lift, WI.ret, SSR.push_back,
      WI.bind, WI.get_stack, WI.set_stack, WI.write. cbn. rewrite Happ.
    reflexivity.
Qed.

(** X22. When its pattern does not match, a rule puts the two values back
    and writes nothing: the interpreter is exactly what it was. The two
    values are taken to have the payload their tag announces. *)
Theorem simplify_rule_declines (o : SSR.op) i rest x top :
  WI.stack i = rest ++ [x; top] ->
  WofValue.payload_matches_tag x = true ->
  WofValue.payload_matches_tag top = true ->
  rule_applies o x top = false ->
  SSR.lambda o i = (Normal tt, i).
Proof.
  intros Hs Hx Htop Happ.
  assert (Hs' : WI.stack i = (rest ++ [x]) ++ [top])
    by (by rewrite <- app_assoc).
  assert (Hlen : (length (WI.stack i) <? 2)%nat = false)
    by (rewrite Hs; apply length_two_more).
  assert (Hback : WI.with_stack ((rest ++ [x]) ++ [top]) i = i)
    by (rewrite <- Hs'; apply with_stack_same).
  destruct o; unfold SSR.lambda;
    unfold WI.bind at 1; unfold WI.get_stack at 1; rewrite Hlen;
    unfold WI.bind at 1; rewrite (take_back_snoc i (rest ++ [x]) top Hs');
    unfold WI.bind at 1;
    rewrite (take_back_snoc (WI.with_stack (rest ++ [x]) i) rest x
               (stack_with_stack _ _));
    unfold rule_applies, integer_is in Happ;
    destruct x as [tx vx ux]; destruct tx, vx; try discriminate Hx;
    destruct top as [tt vt ut]; destruct tt, vt; try discriminate Htop;
    cbn in Happ;
    unfold WI.bind, SSR.is_integer, WI.bind, WI.lift, WI.ret, SSR.push_back,
      WI.bind, WI.get_stack, WI.set_stack, WI.write; cbn;
    rewrite ?Happ; cbn; exact (f_equal (pair (Normal tt)) Hback).
Qed.

End SimplifyRules.

(** ** Scripts and the interactive loop *)

Section Execution.
Context `{Platform} {Plugin : Type} `{!WI.PluginHost Plugin}.
Implicit Types (i j k : WI.t Plugin).

Lemma exec_lines_app (l1 l2 : list string) i :
  WI.exec_lines (l1 ++ l2) i =
    WI.bind (WI.exec_lines l1) (fun _ => WI.exec_lines l2) i.
Proof.
  revert i. induction l1 as [ | line l1 IH]; intros i; [done | ].
  cbn [app WI.exec_lines]. unfold WI.bind in *.
  destruct (WI.exec_line line i) as [[[] | e] j]; [apply IH | done].
Qed.

(** X23. A script that cannot be opened throws "failed to open script: "
    followed by its name and changes nothing. In a script that opens, the
    first line that throws ends the run: the lines after it are not
    executed, and the interpreter keeps what the earlier lines and the
    failing line did. *)
Theorem exec_script_stops_at_first_error
    (fs : string -> option (list string)) (filename : string) i :
  (fs filename = None ->
   WI.exec_script fs filename i =
     (Throw (runtime_error ("failed to open script: " +:+ filename)), i))
  /\ (forall before line after j k e,
        fs filename = Some (before ++ line :: after) ->
        WI.exec_lines before i = (Normal tt, j) ->
        WI.exec_line line j = (Throw e, k) ->
        WI.exec_script fs filename i = (Throw e, k)).
Proof.
  split.
  - intros Hnone. unfold WI.exec_script. by rewrite Hnone.
  - intros before line after j k e Hsome Hbefore Hline.
    unfold WI.exec_script. rewrite Hsome, exec_lines_app.
    unfold WI.bind at 1. rewrite Hbefore. cbn [WI.exec_lines].
    unfold WI.bind at 1. by rewrite Hline.
Qed.

Lemma repl_loop_fold (bad_variant_text : string) (cin : list string)
    (cerr : string) i :
  fst (WI.repl_loop bad_variant_text cin cerr i) =
    snd (WI.write "wofl> " (fold_left session_step cin i))
  /\ exists more,
       snd (WI.repl_loop bad_variant_text cin cerr i) = cerr +:+ more.
Proof.
  revert cerr i. induction cin as [ | line cin IH]; intros cerr i.
  - cbn. split; [done | ]. exists EmptyString. by rewrite string_app_nil_r.
  - cbn [WI.repl_loop fold_left]. unfold session_step at 2.
    destruct (WI.exec_line line (snd (WI.write "wofl> " i)))
      as [[[] | ex] j]; cbn [snd].
    + apply IH.
    + destruct (IH (cerr +:+ "Error: " +:+ WI.what bad_variant_text ex
                    +:+ WI.endl) j) as [Hstate [more Hmore]].
      split; [done | ].
      exists (("Error: " +:+ WI.what bad_variant_text ex +:+ WI.endl)
              +:+ more).
      by rewrite Hmore, string_app_assoc.
Qed.

(** X24. The interactive loop survives every error: whatever the lines
    throw, each line read is executed, from the state the line before it
    left (a line that throws is not rolled back), and a last prompt is
    written when the input ends. What stood on [std::cerr] stays in front
    of the reports the loop adds. *)
Theorem repl_executes_every_line (bad_variant_text : string)
    (cin : list string) (cerr : string) i :
  fst (WI.repl bad_variant_text cin cerr i) =
    snd (WI.write "wofl> "
           (fold_left session_step cin
              (snd (WI.write ("Woflang REPL. Ctrl+D or Ctrl+Z to exit."
                              +:+ WI.endl) i))))
  /\ exists more,
       snd (WI.repl bad_variant_text cin cerr i) = cerr +:+ more.
Proof. unfold WI.repl. apply repl_loop_fold. Qed.

End Execution.

(** ** The primality test *)

Lemma rem_zero_divide (n d : Z) :
  0 < d -> (Z.rem n d =? 0) = true <-> (d | n).
Proof.
  intros Hd. rewrite Z.eqb_eq. apply Z.rem_divide. lia.
Qed.

Lemma not_prime_divisor (n d : Z) : 1 < d < n -> (d | n) -> ~ Z.prime n.
Proof. intros Hd Hdiv [_ Hp]. exact (Hp d Hd Hdiv). Qed.

(** No divisor below [i] with [n < i * i] makes [n] prime. *)
Lemma prime_no_small_divisor (n i : Z) :
  1 < n -> 0 < i -> n < i * i ->
  (forall d, 1 < d < i -> ~ (d | n)) ->
  Z.prime n.
Proof.
  intros Hn Hi Hsq Hinv. split; [done | ].
  intros d Hd [q Hq].
  assert (Hqpos : 1 < q < n) by nia.
  destruct (Z_lt_le_dec d i) as [Hlt | Hge].
  - apply (Hinv d); [lia | by exists q].
  - destruct (Z_lt_le_dec q i) as [Hqlt | Hqge].
    + apply (Hinv q); [lia | ]. exists d. lia.
    + nia.
Qed.

(** The loop, from a candidate [i] of the form 6k + 5 below which [n] has no
    divisor: with enough fuel and no product out of range it answers, and
    the answer is whether [n] is prime. *)
Lemma is_prime_loop_correct (fuel : nat) (n i : Z) :
  3 < n ->
  ~ (2 | n) -> ~ (3 | n) ->
  5 <= i <= Z.sqrt n + 6 ->
  i mod 6 = 5 ->
  (forall d, 1 < d < i -> ~ (d | n)) ->
  n + 12 * Z.sqrt n + 36 <= Std.LLONG_MAX ->
  Z.sqrt n < i + 6 * Z.of_nat fuel - 6 ->
  exists b, is_prime_loop fuel n i = Some b /\ (b = true <-> Z.prime n).
Proof.
  revert i. induction fuel as [ | fuel IH];
    intros i Hn H2 H3 Hi Hmod Hinv Hmax Hfuel.
  - exfalso. change (Z.of_nat 0) with 0 in Hfuel. lia.
  - pose proof (Z.sqrt_spec n ltac:(lia)) as Hsqrt. cbn zeta in Hsqrt.
    pose proof (Z.sqrt_nonneg n) as Hsnn.
    cbn [is_prime_loop].
    destruct (Z.ltb_spec Std.LLONG_MAX (i * i)) as [Hover | _]; [nia | ].
    destruct (Z.leb_spec (i * i) n) as [Hle | Hgt].
    + assert (Hisqrt : i <= Z.sqrt n) by nia.
      destruct (Z.rem n i =? 0) eqn:Hri.
      * exists false. split; [done | ]. split; [discriminate | ].
        intros Hp. exfalso. apply (not_prime_divisor n i); [nia | | done].
        apply rem_zero_divide; [lia | done].
      * destruct (Z.rem n (i + 2) =? 0) eqn:Hri2; cbn [orb].
        -- exists false. split; [done | ]. split; [discriminate | ].
           intros Hp. exfalso.
           apply (not_prime_divisor n (i + 2)); [nia | | done].
           apply rem_zero_divide; [lia | done].
        -- apply IH; try done.
           ++ lia.
           ++ rewrite <- Zplus_mod_idemp_l, Hmod. reflexivity.
           ++ intros d Hd Hdiv.
              pose proof (Z.div_mod i 6 ltac:(lia)) as Hi6.
              rewrite Hmod in Hi6.
              destruct (Z_lt_le_dec d i) as [Hlt | Hge];
                [by apply (Hinv d); [lia | ] | ].
              assert (Hcases : d = i \/ d = i + 1 \/ d = i + 2 \/ d = i + 3
                               \/ d = i + 4 \/ d = i + 5) by lia.
              destruct Hcases as [-> | [-> | [-> | [-> | [-> | ->]]]]].
              ** apply rem_zero_divide in Hdiv; [ | lia]. congruence.
              ** apply H2. apply Z.divide_trans with (i + 1); [ | done].
                 exists (3 * (i / 6) + 3). lia.
              ** apply rem_zero_divide in Hdiv; [ | lia]. congruence.
              ** apply H2. apply Z.divide_trans with (i + 3); [ | done].
                 exists (3 * (i / 6) + 4). lia.
              ** apply H3. apply Z.divide_trans with (i + 4); [ | done].
                 exists (2 * (i / 6) + 3). lia.
              ** apply H2. apply Z.divide_trans with (i + 5); [ | done].
                 exists (3 * (i / 6) + 5). lia.
           ++ lia.
    + exists true. split; [done | ]. split; [ | done]. intros _.
      apply (prime_no_small_divisor n i); try done; lia.
Qed.

(** X25. The primality test is right wherever it is defined: for every
    64-bit [n] small enough that no product [i * i] of the loop leaves the
    64-bit range (n + 12 sqrt(n) + 36 at most [LLONG_MAX]), it returns, and
    it returns true exactly when [n] is a prime number. Numbers below 2,
    the negative ones included, are not prime. *)
Theorem is_prime_int64_correct (n : Z) :
  n + 12 * Z.sqrt n + 36 <= Std.LLONG_MAX ->
  exists b, is_prime_int64 n = Some b /\ (b = true <-> Z.prime n).
Proof.
  intros Hmax. unfold is_prime_int64.
  destruct (Z.leb_spec n 1) as [Hle1 | Hgt1].
  - exists false. split; [done | ]. split; [discriminate | ].
    intros [Hp _]. lia.
  - destruct (Z.leb_spec n 3) as [Hle3 | Hgt3].
    + exists true. split; [done | ]. split; [ | done]. intros _.
      split; [lia | ]. intros d Hd [q Hq].
      assert (Hd2 : n = 3 /\ d = 2) by lia. destruct Hd2 as [-> ->]. lia.
    + destruct (Z.rem n 2 =? 0) eqn:Hr2.
      * exists false. split; [done | ]. split; [discriminate | ].
        intros Hp. exfalso. apply (not_prime_divisor n 2); [lia | | done].
        apply rem_zero_divide; [lia | done].
      * destruct (Z.rem n 3 =? 0) eqn:Hr3; cbn [orb].
        -- exists false. split; [done | ]. split; [discriminate | ].
           intros Hp. exfalso. apply (not_prime_divisor n 3); [lia | | done].
           apply rem_zero_divide; [lia | done].
        -- assert (H2 : ~ (2 | n)).
           { intros Hd. apply rem_zero_divide in Hd; [congruence | lia]. }
           assert (H3 : ~ (3 | n)).
           { intros Hd. apply rem_zero_divide in Hd; [congruence | lia]. }
           pose proof (Z.sqrt_spec n ltac:(lia)) as Hsqrt. cbn zeta in Hsqrt.
           pose proof (Z.sqrt_nonneg n) as Hsnn.
           assert (Hs2 : 2 <= Z.sqrt n) by nia.
           apply is_prime_loop_correct; try done.
           ++ lia.
           ++ intros d Hd Hdiv.
              assert (Hcases : d = 2 \/ d = 3 \/ d = 4) by lia.
              destruct Hcases as [-> | [-> | ->]]; [done | done | ].
              apply H2. apply Z.divide_trans with 4; [by exists 2 | done].
           ++ rewrite Z2Nat.id by lia. lia.
Qed.

(** ** Words, literals and the table *)

Lemma tokenize_loop_word (w : string) (st : tokenizer_state) :
  no_space w = true ->
  no_quote w = true ->
  in_quotes st = false ->
  tokenize_loop w st = mk_tokenizer (tokens st) (current st +:+ w) false.
Proof.
  revert st. induction w as [ | c w IH]; intros st Hsp Hnq Hq.
  - cbn [tokenize_loop]. rewrite string_app_nil_r. destruct st; cbn in *.
    by subst.
  - cbn in Hsp, Hnq. apply andb_prop in Hsp as [Hc Hsp].
    apply andb_prop in Hnq as [Hd Hnq]. apply negb_true_iff in Hc, Hd.
    cbn [tokenize_loop]. unfold tokenize_step. rewrite Hd, Hc, Hq.
    cbn [andb]. rewrite IH by done. cbn [tokens current].
    unfold push_back_char.
    by rewrite string_app_assoc, string_app_cons, string_app_nil_l.
Qed.

Lemma tokenize_words (words : list string) (st : tokenizer_state) :
  Forall (fun w => is_word w = true) words ->
  in_quotes st = false ->
  current st = EmptyString ->
  tokenize_flush (tokenize_loop (String.concat " " words) st)
  = tokens st ++ words.
Proof.
  revert st. induction words as [ | w words IH]; intros st Hok Hq Hcur.
  - cbn [String.concat tokenize_loop]. unfold tokenize_flush. rewrite Hcur.
    cbn [string_empty negb]. by rewrite app_nil_r.
  - inversion Hok as [ | ? ? Hw Hrest]; subst.
    unfold is_word in Hw. apply andb_prop in Hw as [Hw Hnq].
    apply andb_prop in Hw as [Hne Hsp]. apply negb_true_iff in Hne.
    destruct words as [ | w' words].
    + cbn [String.concat]. rewrite (tokenize_loop_word w st) by done.
      unfold tokenize_flush. cbn [tokens current]. rewrite Hcur.
      rewrite string_app_nil_l, Hne. reflexivity.
    + change (String.concat " " (w :: w' :: words))
        with (w +:+ " " +:+ String.concat " " (w' :: words)).
      rewrite tokenize_loop_app, (tokenize_loop_word w st) by done.
      rewrite Hcur, string_app_nil_l.
      change (tokenize_loop (" " +:+ String.concat " " (w' :: words))
                (mk_tokenizer (tokens st) w false))
        with (tokenize_loop (String.concat " " (w' :: words))
                (tokenize_step (mk_tokenizer (tokens st) w false) " ")).
      change (tokenize_step (mk_tokenizer (tokens st) w false) " ")
        with (if negb (string_empty w)
              then mk_tokenizer (tokens st ++ [w]) EmptyString false
              else mk_tokenizer (tokens st) w false).
      rewrite Hne. cbn [negb]. rewrite IH by done. cbn [tokens].
      by rewrite <- app_assoc.
Qed.

Lemma no_space_back (s : string) (c : ascii) :
  no_space s = true -> back s = Some c -> Std.isspace c = false.
Proof.
  induction s as [ | x s IH]; [discriminate | ]. cbn [no_space back].
  intros Hsp. apply andb_prop in Hsp as [Hx Hsp]. apply negb_true_iff in Hx.
  destruct s as [ | y s]; [by intros [= <-] | by apply IH].
Qed.

Lemma back_app (a b : string) :
  string_empty b = false -> back (a +:+ b) = back b.
Proof.
  intros Hb. induction a as [ | x a IH]; [done | ].
  rewrite string_app_cons. cbn [back].
  destruct (a +:+ b) as [ | y r] eqn:Hab; [ | done].
  destruct a; [ | discriminate]. rewrite string_app_nil_l in Hab.
  by rewrite Hab in Hb.
Qed.

Lemma concat_words_back (words : list string) (c : ascii) :
  Forall (fun w => is_word w = true) words ->
  back (String.concat " " words) = Some c -> Std.isspace c = false.
Proof.
  induction words as [ | w words IH]; intros Hok; [discriminate | ].
  inversion Hok as [ | ? ? Hw Hrest]; subst.
  unfold is_word in Hw. apply andb_prop in Hw as [Hw Hnq].
  apply andb_prop in Hw as [Hne Hsp]. apply negb_true_iff in Hne.
  destruct words as [ | w' words].
  - cbn [String.concat]. by apply no_space_back.
  - change (String.concat " " (w :: w' :: words))
      with (w +:+ " " +:+ String.concat " " (w' :: words)).
    assert (Hne' : string_empty (String.concat " " (w' :: words)) = false).
    { inversion Hrest as [ | ? ? Hw' _]; subst. unfold is_word in Hw'.
      destruct w' as [ | y w']; [discriminate | ].
      by destruct words. }
    rewrite back_app by done. rewrite back_app by done. by apply IH.
Qed.

Section Words.
Context `{Platform} {Plugin : Type} `{!WI.PluginHost Plugin}.
Implicit Types (i j : WI.t Plugin).

(** X26. Words joined by single spaces come back as the tokens: when no
    word is empty or holds white space or a double quote, tokenizing the
    joined line gives the words in order, and executing the line dispatches
    exactly these words. *)
Theorem words_are_the_tokens (words : list string) i :
  Forall (fun w => is_word w = true) words ->
  simple_tokenize (String.concat " " words) = words
  /\ WI.exec_line (String.concat " " words) i = WI.dispatch_all words i.
Proof.
  intros Hok.
  assert (Htok : simple_tokenize (String.concat " " words) = words)
    by (unfold simple_tokenize; by rewrite tokenize_words).
  split; [done | ].
  destruct words as [ | w words]; [reflexivity | ].
  assert (Htrim : trim (String.concat " " (w :: words))
                  = String.concat " " (w :: words)).
  { unfold trim. rewrite skip_space_id.
    - apply trim_end_id. intros c. by apply concat_words_back.
    - intros c. inversion Hok as [ | ? ? Hw _]; subst. unfold is_word in Hw.
      destruct w as [ | x w]; [discriminate | ]. cbn in Hw.
      destruct (Std.isspace x) eqn:Hx; [discriminate | ].
      destruct words; cbn; by intros [= <-]. }
  unfold WI.exec_line. rewrite Htrim, Htok.
  inversion Hok as [ | ? ? Hw _]; subst. unfold is_word in Hw.
  destruct w as [ | x w]; [discriminate | ].
  by destruct words.
Qed.

(** X27. Literals and comments never reach the table: for a token that is a
    comment, a quoted string or a number, what [dispatch_token] returns and
    what it does to the stack and the output do not depend on the table,
    which it leaves as it is. A handler registered under such a name cannot
    be invoked by its name. *)
Theorem literal_tokens_ignore_the_table (token : string)
    (s : list WofValue.t) (table table' : gmap string (WI.WofOpHandler Plugin))
    (out : string) :
  is_comment_token token
  || is_quoted_token token
  || is_integer_token token
  || is_float_token token = true ->
  let r := WI.dispatch_token token (WI.mk s table out) in
  let r' := WI.dispatch_token token (WI.mk s table' out) in
  fst r = fst r'
  /\ WI.stack (snd r) = WI.stack (snd r')
  /\ WI.cout (snd r) = WI.cout (snd r')
  /\ WI.ops (snd r) = table.
Proof.
  intros Hlit r r'. unfold r, r', WI.dispatch_token.
  destruct (is_comment_token token); [done | ].
  destruct (is_quoted_token token); [done | ].
  destruct (is_integer_token token).
  - unfold WI.bind, WI.lift. by destruct (Std.stoll token).
  - destruct (is_float_token token); [ | discriminate].
    unfold WI.bind, WI.lift. by destruct (stod token).
Qed.

(** X28. An integer literal whose value does not fit 64 bits is not pushed:
    [dispatch_token] throws [std::out_of_range] and the interpreter is left
    as it was. *)
Theorem integer_literal_overflow (token : string) i :
  is_integer_token token = true ->
  literal_value token < Std.LLONG_MIN \/ Std.LLONG_MAX < literal_value token ->
  WI.dispatch_token token i = (Throw (out_of_range "stoll"), i).
Proof.
  intros Hint Hrange.
  destruct (integer_token_not_comment_not_quoted token Hint) as [Hc Hq].
  unfold WI.dispatch_token. rewrite Hc, Hq, Hint.
  unfold WI.bind, WI.lift. rewrite (stoll_integer_token token Hint).
  destruct (Z.leb_spec Std.LLONG_MIN (literal_value token));
    destruct (Z.leb_spec (literal_value token) Std.LLONG_MAX);
    cbn [andb]; try reflexivity; lia.
Qed.

(** X29. On an empty stack, [pop] and every typed pop throw "stack
    underflow" and leave the interpreter as it was. *)
Theorem pops_on_empty_stack i :
  WI.stack i = [] ->
  WI.pop i = (Throw (runtime_error "stack underflow"), i)
  /\ WI.pop_int i = (Throw (runtime_error "stack underflow"), i)
  /\ WI.pop_double i = (Throw (runtime_error "stack underflow"), i)
  /\ WI.pop_numeric i = (Throw (runtime_error "stack underflow"), i)
  /\ WI.pop_string i = (Throw (runtime_error "stack underflow"), i)
  /\ WI.pop_symbol i = (Throw (runtime_error "stack underflow"), i)
  /\ WI.pop_bool i = (Throw (runtime_error "stack underflow"), i).
Proof.
  intros Hs. destruct i as [s t c]. cbn in Hs. subst s.
  split_and!; reflexivity.
Qed.

End Words.
(** * The properties on concrete inputs *)

#[local] Existing Instance Demo.platform.
#[local] Existing Instance Demo.host.

(** C2, counterexample. The tokenizer ends the line in quoted mode, and the
    partial token, opening quote and inner white space included, is the last
    token of the result: it is not dropped. *)
Lemma unterminated_quote_token_is_not_dropped :
  in_quotes (tokenize_loop Demo.open_quote_line tokenizer_init) = true
  /\ current (tokenize_loop Demo.open_quote_line tokenizer_init)
     = String Std.dquote "hello world"
  /\ simple_tokenize Demo.open_quote_line
     = ["say"%string; String Std.dquote "hello world"].
Proof. split_and!; reflexivity. Qed.

(** The amended C2 on that line: it ends in quoted mode and its partial token
    is emitted. *)
Lemma unterminated_quote_is_emitted_witness :
  in_quotes (tokenize_loop Demo.open_quote_line tokenizer_init) = true
  /\ exists pre rest,
       Demo.open_quote_line = pre +:+ String Std.dquote rest
       /\ no_quote rest = true
       /\ in_quotes (tokenize_loop pre tokenizer_init) = false
       /\ simple_tokenize Demo.open_quote_line =
            tokens (tokenize_loop pre tokenizer_init)
            ++ [current (tokenize_loop pre tokenizer_init)
                +:+ String Std.dquote rest].
Proof.
  split; [reflexivity | ].
  apply (unterminated_quote_is_emitted Demo.open_quote_line). reflexivity.
Defined.

(** C3, counterexample. The operands 5 and 0 are both numeric, yet [/]
    pushes no result for them: it throws, and the stack is left empty. *)
Lemma division_by_zero_pushes_no_double :
  WofValue.is_numeric (WofValue.make_int 5) = true
  /\ WofValue.is_numeric (WofValue.make_int 0) = true
  /\ WI.core_op op_div
       (Demo.on_stack [WofValue.make_int 5; WofValue.make_int 0])
     = (Throw (runtime_error "division by zero"), Demo.on_stack []).
Proof. split_and!; reflexivity. Qed.

(** The amended C3 on the stack [20, 4.0]: an Integer below a Double. *)
Lemma core_arithmetic_pushes_double_witness :
  let i := Demo.on_stack [WofValue.make_int 20; WofValue.make_double (Double.of_int64 4)] in
  WI.core_op op_add i = (Normal tt, Demo.on_stack [WofValue.make_double (Double.of_int64 24)])
  /\ WI.core_op op_sub i = (Normal tt, Demo.on_stack [WofValue.make_double (Double.of_int64 16)])
  /\ WI.core_op op_mul i = (Normal tt, Demo.on_stack [WofValue.make_double (Double.of_int64 80)])
  /\ WI.core_op op_div i = (Normal tt, Demo.on_stack [WofValue.make_double (Double.of_int64 5)]).
Proof.
  intros i.
  destruct (core_arithmetic_pushes_double i []
              (WofValue.make_int 20) (WofValue.make_double (Double.of_int64 4))
              (Double.of_int64 20) (Double.of_int64 4)
              eq_refl eq_refl eq_refl)
    as (Hadd & Hsub & Hmul & Hdiv & _).
  split_and!.
  - exact Hadd.
  - exact Hsub.
  - exact Hmul.
  - exact (Hdiv eq_refl).
Defined.

(** C4, counterexample. The top of the stack is the number zero, and [/]
    does not throw "division by zero": with nothing below the zero it
    throws "stack underflow". *)
Lemma division_on_lone_zero_underflows :
  WofValue.as_numeric (WofValue.make_int 0) = Normal Double.zero
  /\ Double.eqb Double.zero Double.zero = true
  /\ WI.core_op op_div (Demo.on_stack [WofValue.make_int 0])
     = (Throw (runtime_error "stack underflow"), Demo.on_stack [])
  /\ fst (WI.core_op op_div (Demo.on_stack [WofValue.make_int 0]))
     <> Throw (runtime_error "division by zero").
Proof. split_and!; try reflexivity. discriminate. Qed.

(** The amended C4 on a string, the integer 5 and the double -0.0. *)
Lemma division_by_zero_raises_witness :
  WI.core_op op_div
    (Demo.on_stack [WofValue.make_string "below"; WofValue.make_int 5;
                    WofValue.make_double (S754_zero true)])
  = (Throw (runtime_error "division by zero"),
     Demo.on_stack [WofValue.make_string "below"]).
Proof.
  apply (division_by_zero_raises
           (Demo.on_stack [WofValue.make_string "below"; WofValue.make_int 5;
                           WofValue.make_double (S754_zero true)])
           [WofValue.make_string "below"]
           (WofValue.make_int 5) (WofValue.make_double (S754_zero true))
           (Double.of_int64 5) (S754_zero true));
    reflexivity.
Defined.

(** C5, counterexample. The token "+5" matches the integer-literal grammar;
    it is pushed as the Integer 5, whose text is "5": the sign is lost. The
    same happens to the leading zeros of "007" and to the sign of "-0". *)
Lemma signed_or_padded_literal_does_not_round_trip :
  is_integer_token "+5" = true
  /\ WI.dispatch_token "+5" Demo.fresh
     = (Normal tt, Demo.on_stack [WofValue.make_int 5])
  /\ WofValue.to_string (WofValue.make_int 5) = Normal "5"%string
  /\ "5"%string <> "+5"%string
  /\ WI.dispatch_token "007" Demo.fresh
     = (Normal tt, Demo.on_stack [WofValue.make_int 7])
  /\ WI.dispatch_token "-0" Demo.fresh
     = (Normal tt, Demo.on_stack [WofValue.make_int 0]).
Proof. split_and!; done. Qed.

(** The amended C5 on the smallest 64-bit integer. *)
Lemma integer_token_round_trip_witness :
  WI.dispatch_token "-9223372036854775808" Demo.fresh
  = (Normal tt, Demo.on_stack [WofValue.make_int (-9223372036854775808)])
  /\ WofValue.to_string (WofValue.make_int (-9223372036854775808))
     = Normal "-9223372036854775808"%string.
Proof.
  destruct (integer_token_round_trip "-9223372036854775808"
              (-9223372036854775808) Demo.fresh eq_refl eq_refl)
    as (Hpush & _ & Htext).
  split; [exact Hpush | exact (Htext eq_refl)].
Defined.

(** C6 on two plugin closures registered under one name. *)
Lemma register_op_last_write_wins_witness :
  let i2 :=
    snd (WI.register_op "answer" (WI.plugin_lambda Demo.slay_stack)
           (snd (WI.register_op "answer" (WI.plugin_lambda Demo.push_answer)
                   Demo.fresh))) in
  WI.ops i2 !! "answer"%string = Some (WI.plugin_lambda Demo.slay_stack)
  /\ WI.dispatch_token "answer" (WI.with_stack [WofValue.make_int 1] i2)
     = WI.call (WI.plugin_lambda Demo.slay_stack)
         (WI.with_stack [WofValue.make_int 1] i2).
Proof.
  intros i2.
  destruct (register_op_last_write_wins "answer"
              (WI.plugin_lambda Demo.push_answer)
              (WI.plugin_lambda Demo.slay_stack) Demo.fresh)
    as (_ & _ & _ & Hlookup & Hrun).
  split; [exact Hlookup | ].
  apply Hrun; reflexivity.
Defined.

(** C7 on the token foo, which the fresh interpreter does not know. *)
Lemma unknown_token_becomes_symbol_witness :
  WI.dispatch_token "foo" Demo.fresh
  = (Normal tt, Demo.on_stack [WofValue.make_symbol "foo"]).
Proof.
  apply (unknown_token_becomes_symbol "foo" Demo.fresh); reflexivity.
Defined.

(** C8, counterexample. [nan_line] leaves one Double NaN on the stack of a
    fresh interpreter; [dup] then [drop] leave that stack as it is, and
    [operator==] says that the top value after is not equal to the top value
    before. *)
Lemma dup_drop_on_nan_is_not_operator_eq :
  let i := snd (WI.exec_line Demo.nan_line Demo.fresh) in
  let after := snd (WI.exec_line "dup drop" i) in
  WI.stack i = [WofValue.make_double Demo.nan]
  /\ WI.stack after = [WofValue.make_double Demo.nan]
  /\ WofValue.operator_eq (WI.vector_back (WI.stack after))
       (WI.vector_back (WI.stack i)) = false.
Proof. split_and!; reflexivity. Qed.

(** The amended C8 on an integer below a symbol. *)
Lemma dup_then_drop_restores_top_witness :
  let i := Demo.on_stack [WofValue.make_int 1; WofValue.make_symbol "x"] in
  WI.exec_line "dup drop" i = (Normal tt, i)
  /\ WofValue.operator_eq
       (WI.vector_back (WI.stack (snd (WI.exec_line "dup drop" i))))
       (WofValue.make_symbol "x") = true.
Proof.
  intros i.
  destruct (dup_then_drop_restores_top i [WofValue.make_int 1]
              (WofValue.make_symbol "x") eq_refl)
    as (Hrun & _ & _ & Heq & Hline).
  rewrite (Hline eq_refl eq_refl).
  split; [exact Hrun | exact (Heq eq_refl)].
Defined.

(** C9 on the string False. *)
Lemma pop_bool_never_raises_witness :
  WI.pop_bool (Demo.on_stack [WofValue.make_int 7; WofValue.make_string "False"])
  = (Normal false, Demo.on_stack [WofValue.make_int 7]).
Proof.
  apply (pop_bool_never_raises
           (Demo.on_stack [WofValue.make_int 7; WofValue.make_string "False"])
           [WofValue.make_int 7] (WofValue.make_string "False"));
    reflexivity.
Defined.

(** C10 as stated fails on the double 2^63, which the line
    9223372036854775807 0 + leaves on the stack: the payload rounds to
    2^63, which is no 64-bit integer, and [pop_int] returns [LLONG_MIN] on
    this platform although [LLONG_MAX] is strictly closer to the payload. *)
Lemma pop_int_beyond_int64_is_not_nearest :
  let i := snd (WI.exec_line "9223372036854775807 0 +" Demo.fresh) in
  let big := Double.of_int64 Std.LLONG_MAX in
  WI.stack i = [WofValue.make_double big]
  /\ Double.rounded big = Some (2 ^ 63)
  /\ WI.pop_int i = (Normal Std.LLONG_MIN, Demo.on_stack [])
  /\ strictly_closer big Std.LLONG_MAX Std.LLONG_MIN = true
  /\ ~ nearest_integer big Std.LLONG_MIN.
Proof.
  split_and!; try reflexivity.
  intros Hnear. pose proof (Hnear Std.LLONG_MAX) as Hmax.
  vm_compute in Hmax. by apply Hmax.
Qed.

(** The amended C10 on the double 2.5, which rounds away from zero to 3. *)
Lemma pop_int_accepts_double_witness :
  let half5 := Double.div (Double.of_int64 5) (Double.of_int64 2) in
  WI.pop_int (Demo.on_stack [WofValue.make_double half5])
  = (Normal 3, Demo.on_stack [])
  /\ nearest_integer half5 3.
Proof.
  intros half5.
  destruct (pop_int_accepts_double
              (Demo.on_stack [WofValue.make_double half5]) []
              (WofValue.make_double half5) eq_refl eq_refl)
    as (Hdouble & _).
  destruct (Hdouble half5 eq_refl eq_refl) as (Hpop & Hnear & _).
  destruct (Hnear 3 eq_refl ltac:(split; vm_compute; discriminate))
    as (Hval & Hnearest).
  split; [ | exact Hnearest].
  rewrite Hpop. by rewrite Hval.
Defined.

(** ** The further properties on concrete inputs *)

(** X3 on the line of three tokens 5, 3 and +. *)
Lemma simple_tokenize_splits_at_space_witness :
  Forall (fun tok => no_space tok = true) (simple_tokenize "5 3  +").
Proof. apply (simple_tokenize_splits_at_space "5 3  +"). reflexivity. Defined.

(** X6 on a quotation with two spaces inside. *)
Lemma quoted_literal_is_pushed_verbatim_witness :
  WI.exec_line
    (String Std.dquote ("hello  world" +:+ String Std.dquote EmptyString))
    Demo.fresh
  = (Normal tt, Demo.on_stack [WofValue.make_string "hello  world"]).
Proof.
  destruct (quoted_literal_is_pushed_verbatim "hello  world" Demo.fresh eq_refl)
    as [_ Hexec].
  exact Hexec.
Defined.

(** X4 on a text with white space at both ends. *)
Lemma trim_strips_both_ends_witness :
  trim "  dup drop  " = "dup drop"%string
  /\ Std.isspace "d" = false
  /\ Std.isspace "p" = false
  /\ trim (trim "  dup drop  ") = trim "  dup drop  ".
Proof.
  destruct (trim_strips_both_ends "  dup drop  ") as (Hfront & Hback & Hidem).
  split_and!.
  - reflexivity.
  - apply Hfront. reflexivity.
  - apply Hback. reflexivity.
  - exact Hidem.
Defined.

(** X5 on a line of two spaces. *)
Lemma exec_line_blank_witness :
  WI.exec_line "  " (Demo.on_stack [WofValue.make_int 1])
  = (Normal tt, Demo.on_stack [WofValue.make_int 1]).
Proof.
  apply (exec_line_blank "  " (Demo.on_stack [WofValue.make_int 1])).
  reflexivity.
Defined.

(** X7 on a negative integer literal. *)
Lemma integer_token_is_not_float_token_witness : is_float_token "-42" = false.
Proof. apply (integer_token_is_not_float_token "-42"). reflexivity. Defined.

(** X9 on the name of the addition. *)
Lemma core_operators_are_reachable_witness :
  WI.dispatch_token "+" (Demo.on_stack [WofValue.make_int 1; WofValue.make_int 2])
  = WI.core_op op_add (Demo.on_stack [WofValue.make_int 1; WofValue.make_int 2]).
Proof.
  destruct (core_operators_are_reachable (Plugin := Demo.plugin) EmptyString)
    as (_ & _ & _ & Hreach).
  apply Hreach; [left; reflexivity | reflexivity].
Defined.

(** X10 on the stack 1, 2. *)
Lemma swap_exchanges_top_two_witness :
  WI.core_op op_swap (Demo.on_stack [WofValue.make_int 1; WofValue.make_int 2])
  = (Normal tt, Demo.on_stack [WofValue.make_int 2; WofValue.make_int 1]).
Proof.
  apply (swap_exchanges_top_two
           (Demo.on_stack [WofValue.make_int 1; WofValue.make_int 2]) []
           (WofValue.make_int 1) (WofValue.make_int 2)).
  reflexivity.
Defined.

(** X11 on the stack 1, 2. *)
Lemma swap_twice_is_identity_witness :
  WI.bind (WI.core_op op_swap) (fun _ => WI.core_op op_swap)
    (Demo.on_stack [WofValue.make_int 1; WofValue.make_int 2])
  = (Normal tt, Demo.on_stack [WofValue.make_int 1; WofValue.make_int 2]).
Proof.
  apply (swap_twice_is_identity
           (Demo.on_stack [WofValue.make_int 1; WofValue.make_int 2])).
  cbn. lia.
Defined.

(** X12 on the empty stack and on a stack of one value. *)
Lemma stack_operators_underflow_witness :
  fst (WI.core_op op_dup Demo.fresh)
  = Throw (runtime_error "dup requires at least one value on the stack")
  /\ WI.core_op op_swap (Demo.on_stack [WofValue.make_int 7])
     = (Throw (runtime_error "swap requires at least two values on the stack"),
        Demo.on_stack [WofValue.make_int 7]).
Proof.
  split.
  - destruct (stack_operators_underflow Demo.fresh) as [Hempty _].
    destruct (Hempty eq_refl) as [Hdup _]. by rewrite Hdup.
  - destruct (stack_operators_underflow (Demo.on_stack [WofValue.make_int 7]))
      as [_ Hshort].
    apply Hshort. cbn. lia.
Defined.

(** X13 on a stack of one integer. *)
Lemma printing_is_read_only_witness :
  exists text,
    WI.core_op op_dot_s (Demo.on_stack [WofValue.make_int 1])
    = (Normal tt,
       WI.mk [WofValue.make_int 1] (WI.ops Demo.fresh) (EmptyString +:+ text)).
Proof.
  destruct (printing_is_read_only (Demo.on_stack [WofValue.make_int 1]))
    as (_ & Hdots & _).
  - repeat constructor.
  - exact Hdots.
Defined.

(** X14 on a String value above an integer: the failed [pop_int] has
    removed it. *)
Lemma typed_pop_always_consumes_witness :
  snd (WI.pop_int (Demo.on_stack [WofValue.make_int 1; WofValue.make_string "abc"]))
  = Demo.on_stack [WofValue.make_int 1]
  /\ is_normal
       (fst (WI.pop_int
               (Demo.on_stack [WofValue.make_int 1; WofValue.make_string "abc"])))
     = false.
Proof.
  destruct (typed_pop_always_consumes
              (Demo.on_stack [WofValue.make_int 1; WofValue.make_string "abc"])
              [WofValue.make_int 1] (WofValue.make_string "abc") eq_refl)
    as (Hint & _).
  split; [exact Hint | reflexivity].
Defined.

(** X15 on a Symbol, which [pop_string] accepts, and on a String, which
    [pop_symbol] rejects. *)
Lemma typed_pop_acceptance_witness :
  fst (WI.pop_string (Demo.on_stack [WofValue.make_symbol "abc"]))
  = Normal "abc"%string
  /\ fst (WI.pop_symbol (Demo.on_stack [WofValue.make_string "abc"]))
     = Throw (runtime_error "pop_symbol: value is not a symbol").
Proof.
  destruct (typed_pop_acceptance (Demo.on_stack [WofValue.make_symbol "abc"])
              [] (WofValue.make_symbol "abc") eq_refl eq_refl)
    as (_ & _ & Hstr & _).
  destruct (typed_pop_acceptance (Demo.on_stack [WofValue.make_string "abc"])
              [] (WofValue.make_string "abc") eq_refl eq_refl)
    as (_ & _ & _ & Hsym & _).
  split; [exact Hstr | exact Hsym].
Defined.

(** X16 on a symbol below the integer 1. *)
Lemma arithmetic_failure_keeps_nothing_witness :
  WI.core_op op_add
    (Demo.on_stack [WofValue.make_int 9; WofValue.make_symbol "foo";
                    WofValue.make_int 1])
  = (Throw (runtime_error "pop_numeric: value is not numeric"),
     Demo.on_stack [WofValue.make_int 9]).
Proof.
  destruct (arithmetic_failure_keeps_nothing op_add
              (Demo.on_stack [WofValue.make_int 9; WofValue.make_symbol "foo";
                              WofValue.make_int 1])
              [WofValue.make_int 9] (WofValue.make_symbol "foo")
              (WofValue.make_int 1) (Double.of_int64 1)
              (or_introl eq_refl) eq_refl)
    as [Htype _].
  apply Htype; reflexivity.
Defined.

(** X17 on the tokens 1, +, 2: the addition underflows and 2 is never
    pushed. *)
Lemma dispatch_stops_at_first_throw_witness :
  WI.dispatch_all ["1"; "+"; "2"]%string Demo.fresh
  = (Throw (runtime_error "stack underflow"), Demo.on_stack []).
Proof.
  apply (dispatch_stops_at_first_throw ["1"%string] ["2"%string] "+"
           Demo.fresh (Demo.on_stack [WofValue.make_int 1]));
    reflexivity.
Defined.

(** X18 on the two zeros, which are equal without being the same. *)
Lemma operator_eq_symmetric_transitive_witness :
  WofValue.operator_eq (WofValue.make_double (S754_zero false))
    (WofValue.make_double (S754_zero false)) = true.
Proof.
  destruct (operator_eq_symmetric_transitive
              (WofValue.make_double (S754_zero false))
              (WofValue.make_double (S754_zero true))
              (WofValue.make_double (S754_zero false)))
    as (_ & Htrans & _).
  apply Htrans; reflexivity.
Defined.

(** X27 on the token 42, with the empty table and the table of the
    constructor. *)
Lemma literal_tokens_ignore_the_table_witness :
  fst (WI.dispatch_token "42" (WI.mk [] ∅ EmptyString))
  = fst (WI.dispatch_token "42" Demo.fresh).
Proof.
  destruct (literal_tokens_ignore_the_table (Plugin := Demo.plugin) "42" []
              ∅ (WI.ops Demo.fresh) EmptyString eq_refl)
    as (Hfst & _).
  exact Hfst.
Defined.

(** X19 on the integer -7. *)
Lemma integer_text_reads_back_witness :
  exists text,
    WofValue.to_string (WofValue.make_int (-7)) = Normal text
    /\ is_integer_token text = true
    /\ Std.stoll text = Normal (-7)
    /\ WI.dispatch_token text Demo.fresh
       = (Normal tt,
          WI.with_stack (WI.stack Demo.fresh ++ [WofValue.make_int (-7)])
            Demo.fresh).
Proof.
  apply (integer_text_reads_back (-7) Demo.fresh).
  split; vm_compute; discriminate.
Defined.

(** X28 on the first integer above the 64-bit range. *)
Lemma integer_literal_overflow_witness :
  WI.dispatch_token "9223372036854775808" Demo.fresh
  = (Throw (out_of_range "stoll"), Demo.fresh).
Proof.
  apply (integer_literal_overflow "9223372036854775808" Demo.fresh).
  - reflexivity.
  - right. vm_compute. reflexivity.
Defined.

(** X20 on the rule X * 1 -> X and a stack of one value. *)
Lemma simplify_rule_underflow_witness :
  SSR.lambda SSR.simplify_mul_one (Demo.on_stack [WofValue.make_int 1])
  = (Normal tt,
     WI.mk [WofValue.make_int 1] (WI.ops Demo.fresh)
       (EmptyString +:+ "[" +:+ "simplify_mul_one"
        +:+ "] needs at least 2 values" +:+ SSR.newline)).
Proof.
  apply (simplify_rule_underflow SSR.simplify_mul_one
           (Demo.on_stack [WofValue.make_int 1])).
  cbn. lia.
Defined.

(** X21 on the rule X * 1 -> X, with the symbol x below the integer 1. *)
Lemma simplify_rule_fires_witness :
  exists text,
    SSR.lambda SSR.simplify_mul_one
      (Demo.on_stack [WofValue.make_symbol "x"; WofValue.make_int 1])
    = (Normal tt,
       WI.mk ([] ++ [WofValue.make_symbol "x"]) (WI.ops Demo.fresh)
         (EmptyString +:+ text)).
Proof.
  apply (simplify_rule_fires SSR.simplify_mul_one
           (Demo.on_stack [WofValue.make_symbol "x"; WofValue.make_int 1])
           [] (WofValue.make_symbol "x") (WofValue.make_int 1));
    reflexivity.
Defined.

(** X22 on the rule X * 1 -> X, with the symbol x below the integer 2. *)
Lemma simplify_rule_declines_witness :
  SSR.lambda SSR.simplify_mul_one
    (Demo.on_stack [WofValue.make_symbol "x"; WofValue.make_int 2])
  = (Normal tt, Demo.on_stack [WofValue.make_symbol "x"; WofValue.make_int 2]).
Proof.
  apply (simplify_rule_declines SSR.simplify_mul_one
           (Demo.on_stack [WofValue.make_symbol "x"; WofValue.make_int 2])
           [] (WofValue.make_symbol "x") (WofValue.make_int 2));
    reflexivity.
Defined.

(** X23 on a script whose second line divides by zero: the third line is not
    executed. *)
Lemma exec_script_stops_at_first_error_witness :
  WI.exec_script Demo2.fs "demo.wof" Demo.fresh
  = (Throw (runtime_error "division by zero"),
     Demo.on_stack [WofValue.make_double (Double.of_int64 3)])
  /\ WI.exec_script Demo2.fs "missing.wof" Demo.fresh
     = (Throw (runtime_error "failed to open script: missing.wof"), Demo.fresh).
Proof.
  destruct (exec_script_stops_at_first_error Demo2.fs "demo.wof" Demo.fresh)
    as [_ Hstop].
  destruct (exec_script_stops_at_first_error Demo2.fs "missing.wof" Demo.fresh)
    as [Hmissing _].
  split.
  - apply (Hstop ["1 2 +"%string] "5 0 /"%string ["99"%string]
             (Demo.on_stack [WofValue.make_double (Double.of_int64 3)]));
      reflexivity.
  - apply Hmissing. reflexivity.
Defined.

(** X25 on a prime of the benchmark. *)
Lemma is_prime_int64_correct_witness :
  exists b, is_prime_int64 1000000007 = Some b /\ (b = true <-> Z.prime 1000000007).
Proof.
  apply (is_prime_int64_correct 1000000007). vm_compute. discriminate.
Defined.

(** X26 on the words 5, 3 and +. *)
Lemma words_are_the_tokens_witness :
  simple_tokenize "5 3 +" = ["5"; "3"; "+"]%string
  /\ WI.exec_line "5 3 +" Demo.fresh
     = WI.dispatch_all ["5"; "3"; "+"]%string Demo.fresh.
Proof.
  apply (words_are_the_tokens ["5"; "3"; "+"]%string Demo.fresh).
  repeat constructor.
Defined.

(** X29 on the fresh interpreter. *)
Lemma pops_on_empty_stack_witness :
  WI.pop_bool Demo.fresh = (Throw (runtime_error "stack underflow"), Demo.fresh).
Proof.
  destruct (pops_on_empty_stack Demo.fresh eq_refl)
    as (_ & _ & _ & _ & _ & _ & Hbool).
  exact Hbool.
Defined.
